(** * Concave hull growth engine of raycloudtools (raylib/rayconcavehull.h)

    A shallow embedding of the [ray::ConcaveHull] class: the mesh records
    ([SurfaceFace], [Edge], [Triangle], [Tetrahedron]), the point-membership test
    [insideTetrahedron], the validity tests and the comparator [FaceComp] that
    orders the candidate set [std::set<SurfaceFace, FaceComp>], all from the
    header; and the frontier grower ([growFront], [growSurface]), which the
    header declares and the specification describes.

    C++ [double] is the kernel's binary64 [float] (IEEE 754 arithmetic, with
    NaN, infinities, signed zeros and gradual underflow); C++ [int] is [Z]
    (the header only compares and copies indices, it does no arithmetic on
    them); [std::vector<T>] is [list T], and an access outside the vector,
    which C++ leaves undefined, is a fault of the embedding. *)

From Stdlib Require Import QArith.
From Stdlib Require Import Ascii.
From Stdlib Require Import ZArith List Bool Lia Floats Sorted Permutation.
Import ListNotations.

Open Scope Z_scope.

(** ** Eigen::Vector3d, with the operations the header uses

    Componentwise sum, difference and division by a scalar, the cross
    product and the dot product, each operation rounded as binary64; the sum
    of the dot product is taken from left to right. *)

Record Vector3d := mkVector3d { vx : float; vy : float; vz : float }.

Definition vzero : Vector3d := mkVector3d 0%float 0%float 0%float.

Definition vadd (a b : Vector3d) : Vector3d :=
  mkVector3d (vx a + vx b)%float (vy a + vy b)%float (vz a + vz b)%float.

Definition vsub (a b : Vector3d) : Vector3d :=
  mkVector3d (vx a - vx b)%float (vy a - vy b)%float (vz a - vz b)%float.

Definition vdiv (a : Vector3d) (s : float) : Vector3d :=
  mkVector3d (vx a / s)%float (vy a / s)%float (vz a / s)%float.

Definition cross (a b : Vector3d) : Vector3d :=
  mkVector3d (vy a * vz b - vz a * vy b)%float
             (vz a * vx b - vx a * vz b)%float
             (vx a * vy b - vy a * vx b)%float.

Definition dot (a b : Vector3d) : float :=
  (vx a * vx b + vy a * vy b + vz a * vz b)%float.

(** ** Fixed-size index arrays: [int v[4]], [int v[2]], [Eigen::Vector3i] *)

Record int4 := mkInt4 { i4_0 : Z; i4_1 : Z; i4_2 : Z; i4_3 : Z }.
Record int3 := mkInt3 { i3_0 : Z; i3_1 : Z; i3_2 : Z }.
Record int2 := mkInt2 { i2_0 : Z; i2_1 : Z }.

Definition get4 (a : int4) (j : nat) : Z :=
  match j with
  | O => i4_0 a
  | 1%nat => i4_1 a
  | 2%nat => i4_2 a
  | _ => i4_3 a
  end.

Definition get3 (a : int3) (j : nat) : Z :=
  match j with
  | O => i3_0 a
  | 1%nat => i3_1 a
  | _ => i3_2 a
  end.

(** ** The mesh records *)

Module SurfaceFace.
Record t := mk { tetrahedron : Z; triangle : Z; curvature : float }.
End SurfaceFace.

Module Edge.
Record t := mk { vertices : int2; has_had_face : bool }.
End Edge.

Module Triangle.
Record t := mk {
  is_surface : bool;
  used : bool;
  vertices : int3;
  edges : int3;
  tetrahedra : int2;
  surface_face_cached : SurfaceFace.t
}.

(** [bool valid() { return vertices[0] != -1; }] *)
Definition valid (tri : t) : bool := negb (get3 (vertices tri) 0 =? -1).
End Triangle.

Module Tetrahedron.
Record t := mk {
  vertices : int4;
  triangles : int4;
  neighbours : int4;
  id : Z;
  seen : bool
}.

(** [bool valid() { return vertices[0] != -1; }] *)
Definition valid (tetra : t) : bool := negb (get4 (vertices tetra) 0 =? -1).
End Tetrahedron.

(** The data members of [ConcaveHull]. [surface] is the
    [std::set<SurfaceFace, FaceComp>], kept as the list of its elements in
    iteration order. *)
Record ConcaveHull := mkConcaveHull {
  vertex_on_surface : list bool;
  vertices : list Vector3d;
  edges : list Edge.t;
  triangles : list Triangle.t;
  tetrahedra : list Tetrahedron.t;
  centre : Vector3d;
  surface : list SurfaceFace.t
}.

(** ** Vector accesses

    [v[i]] with an [int] index: defined for [0 <= i < v.size()], a fault
    otherwise.  Every access is logged with the store it indexes and the
    record its index was read from, so that what [insideTetrahedron] reads can
    be stated. *)

Inductive store := Vertices | Triangles.
Inductive origin := FromTetrahedron | FromTriangle.

Record access := Access { a_store : store; a_origin : origin; a_index : Z }.

Definition lookupZ {A} (l : list A) (i : Z) : option A :=
  if i <? 0 then None else nth_error l (Z.to_nat i).

(** A computation that logs its accesses and may fault. *)
Definition M (A : Type) : Type := (list access * option A)%type.

Definition ret {A} (a : A) : M A := ([], Some a).

Definition bind {A B} (m : M A) (f : A -> M B) : M B :=
  match m with
  | (l, None) => (l, None)
  | (l, Some a) => let (l', r) := f a in (l ++ l', r)
  end.

Notation "x <- m ;; k" := (bind m (fun x => k))
  (at level 61, m at next level, right associativity).

Definition readVertex (h : ConcaveHull) (o : origin) (i : Z) : M Vector3d :=
  ([Access Vertices o i], lookupZ (vertices h) i).

Definition readTriangle (h : ConcaveHull) (o : origin) (i : Z) : M Triangle.t :=
  ([Access Triangles o i], lookupZ (triangles h) i).

(** ** insideTetrahedron *)

(** [tetra.vertices[0] == -1 || ... || tetra.vertices[3] == -1] *)
Definition outer (tetra : Tetrahedron.t) : bool :=
  let v := Tetrahedron.vertices tetra in
  (get4 v 0 =? -1) || (get4 v 1 =? -1) || (get4 v 2 =? -1) || (get4 v 3 =? -1).

(** [for (int j = 0; j < 4; j++) mid += vertices[tetra.vertices[j]] / 4.0;] *)
Fixpoint mid_loop (h : ConcaveHull) (tetra : Tetrahedron.t) (js : list nat)
    (mid : Vector3d) : M Vector3d :=
  match js with
  | [] => ret mid
  | j :: js' =>
      v <- readVertex h FromTetrahedron (get4 (Tetrahedron.vertices tetra) j) ;;
      mid_loop h tetra js' (vadd mid (vdiv v 4%float))
  end.

(** [vs[j] = vertices[triangles[tetra.triangles[i]].vertices[j]]] *)
Definition read_vs (h : ConcaveHull) (tetra : Tetrahedron.t) (i j : nat)
    : M Vector3d :=
  tri <- readTriangle h FromTetrahedron (get4 (Tetrahedron.triangles tetra) i) ;;
  readVertex h FromTriangle (get3 (Triangle.vertices tri) j).

(** The two signed distances (up to the length of the normal) that the loop
    body multiplies, from the three corners of the face. *)
Definition side_of (x vs0 vs1 vs2 : Vector3d) : float :=
  dot (vsub x vs0) (cross (vsub vs1 vs0) (vsub vs2 vs0)).

(** The body of the loop over the four bounding triangles, with its early
    [return false]. *)
Fixpoint face_loop (h : ConcaveHull) (pos mid : Vector3d)
    (tetra : Tetrahedron.t) (faces : list nat) : M bool :=
  match faces with
  | [] => ret true
  | i :: faces' =>
      vs0 <- read_vs h tetra i 0 ;;
      vs1 <- read_vs h tetra i 1 ;;
      vs2 <- read_vs h tetra i 2 ;;
      if (side_of pos vs0 vs1 vs2 * side_of mid vs0 vs1 vs2 <? 0)%float
      then ret false
      else face_loop h pos mid tetra faces'
  end.

Definition insideTetrahedron_run (h : ConcaveHull) (pos : Vector3d)
    (tetra : Tetrahedron.t) : M bool :=
  if outer tetra then ret false
  else
    mid <- mid_loop h tetra [0; 1; 2; 3]%nat vzero ;;
    face_loop h pos mid tetra [0; 1; 2; 3]%nat.

(** The value [insideTetrahedron] returns ([None]: an access outside a
    vector), and the accesses it makes. *)
Definition insideTetrahedron (h : ConcaveHull) (pos : Vector3d)
    (tetra : Tetrahedron.t) : option bool :=
  snd (insideTetrahedron_run h pos tetra).

Definition insideTetrahedron_accesses (h : ConcaveHull) (pos : Vector3d)
    (tetra : Tetrahedron.t) : list access :=
  fst (insideTetrahedron_run h pos tetra).

(** ** FaceComp *)

Definition FaceComp (lhs rhs : SurfaceFace.t) : bool :=
  if (SurfaceFace.curvature lhs =? SurfaceFace.curvature rhs)%float then
    if SurfaceFace.triangle lhs =? SurfaceFace.triangle rhs then
      SurfaceFace.tetrahedron lhs <? SurfaceFace.tetrahedron rhs
    else SurfaceFace.triangle lhs <? SurfaceFace.triangle rhs
  else (SurfaceFace.curvature lhs <? SurfaceFace.curvature rhs)%float.

(** ** The candidate set [std::set<SurfaceFace, FaceComp> surface]

    The set is the list of its elements in iteration order.  [insert] walks
    to the first element that is not before the new one, and leaves the set
    as it is when that element is not after the new one either (the two are
    equivalent for the comparator). *)

Fixpoint set_insert (x : SurfaceFace.t) (s : list SurfaceFace.t)
    : list SurfaceFace.t :=
  match s with
  | [] => [x]
  | y :: s' =>
      if FaceComp x y then x :: y :: s'
      else if FaceComp y x then y :: set_insert x s'
      else y :: s'
  end.

(** The set after the insertions of [l], first element first. *)
Definition set_of_list (l : list SurfaceFace.t) : list SurfaceFace.t :=
  fold_left (fun s x => set_insert x s) l [].

(** The iteration order of a set: strictly increasing for the comparator. *)
Definition ordered (s : list SurfaceFace.t) : Prop :=
  StronglySorted (fun a b => FaceComp a b = true) s.

(** ** The frontier grower

    [growFront], [growSurface] and [circumcurvature] are declared in the
    header; their bodies are in rayconcavehull.cpp. *)

Inductive result (A : Type) : Type :=
| Ok (a : A)
| Fault.
Arguments Ok {A} a.
Arguments Fault {A}.

Fixpoint update_nth {A} (l : list A) (n : nat) (f : A -> A) : list A :=
  match l, n with
  | [], _ => []
  | x :: l', O => f x :: l'
  | x :: l', S n' => x :: update_nth l' n' f
  end.

Definition updateZ {A} (l : list A) (i : Z) (f : A -> A) : list A :=
  if i <? 0 then l else update_nth l (Z.to_nat i) f.

Definition set_seen (tetra : Tetrahedron.t) : Tetrahedron.t :=
  Tetrahedron.mk (Tetrahedron.vertices tetra) (Tetrahedron.triangles tetra)
                 (Tetrahedron.neighbours tetra) (Tetrahedron.id tetra) true.

Definition set_surface_used (tri : Triangle.t) : Triangle.t :=
  Triangle.mk true true (Triangle.vertices tri) (Triangle.edges tri)
              (Triangle.tetrahedra tri) (Triangle.surface_face_cached tri).

Definition with_surface (h : ConcaveHull) (s : list SurfaceFace.t) : ConcaveHull :=
  mkConcaveHull (vertex_on_surface h) (vertices h) (edges h) (triangles h)
                (tetrahedra h) (centre h) s.

(** Modelled from the spec: the marks of [growFront] on the mesh, "mark the
    opposite tetrahedron as consumed; mark the triangle is_surface = true and
    used = true", with the candidate [face] popped from the set, of which
    [rest] is the remainder. *)
Definition consume (h : ConcaveHull) (face : SurfaceFace.t)
    (rest : list SurfaceFace.t) : ConcaveHull :=
  mkConcaveHull (vertex_on_surface h) (vertices h) (edges h)
    (updateZ (triangles h) (SurfaceFace.triangle face) set_surface_used)
    (updateZ (tetrahedra h) (SurfaceFace.tetrahedron face) set_seen)
    (centre h) rest.

Section Growth.

(** Modelled from the spec: [ConcaveHull::circumcurvature], of which the
    header has the declaration
    [double circumcurvature(const Tetrahedron &tetra, int triangleID)] and
    the specification no formula: a pure function of the geometry, which
    growth does not change. *)
Variable circumcurvature : Tetrahedron.t -> Z -> float.

(** Modelled from the spec: the treatment by [growFront] of the [j]-th
    bounding triangle of the tetrahedron just consumed, "for each of the
    other three bounding triangles of the newly consumed tetrahedron that
    are not already used and that have an unconsumed tetrahedron on their
    far side, compute their curvature and insert them as new candidates
    (skip insertion if the opposite side is a sentinel outer
    tetrahedron)".  The far side of the [j]-th triangle is the [j]-th
    neighbour, [-1] when the triangle is a boundary face; an index outside
    the stores is the malformed tetrahedralization that must fail fast. *)
Definition expose (face_triangle : Z) (tetra : Tetrahedron.t)
    (h : ConcaveHull) (j : nat) : result ConcaveHull :=
  let t := get4 (Tetrahedron.triangles tetra) j in
  if t =? face_triangle then Ok h
  else
    match lookupZ (triangles h) t with
    | None => Fault
    | Some tri =>
        if Triangle.used tri then Ok h
        else
          let far := get4 (Tetrahedron.neighbours tetra) j in
          if far =? -1 then Ok h
          else
            match lookupZ (tetrahedra h) far with
            | None => Fault
            | Some ft =>
                if Tetrahedron.seen ft || outer ft then Ok h
                else
                  Ok (with_surface h
                        (set_insert
                           (SurfaceFace.mk far t (circumcurvature ft t))
                           (surface h)))
            end
    end.

(** Modelled from the spec: the loop of [growFront] over the bounding
    triangles of the tetrahedron just consumed. *)
Fixpoint expose_all (face_triangle : Z) (tetra : Tetrahedron.t)
    (h : ConcaveHull) (js : list nat) : result ConcaveHull :=
  match js with
  | [] => Ok h
  | j :: js' =>
      match expose face_triangle tetra h j with
      | Ok h' => expose_all face_triangle tetra h' js'
      | Fault => Fault
      end
  end.

(** Modelled from the spec: [ConcaveHull::growFront], "pops the
    lowest-curvature candidate.  If its curvature exceeds maxCurvature, the
    candidate is not consumed and the call returns false.  Otherwise: mark
    the opposite tetrahedron as consumed; mark the triangle is_surface =
    true and used = true; for each of the other three bounding triangles
    [...] insert them as new candidates.  Returns true if a face was
    consumed"; "never raises on an empty candidate set; it reports
    exhaustion via its boolean return". *)
Definition growFront (maxCurvature : float) (h : ConcaveHull)
    : result (bool * ConcaveHull) :=
  match surface h with
  | [] => Ok (false, h)
  | face :: rest =>
      if (maxCurvature <? SurfaceFace.curvature face)%float then Ok (false, h)
      else
        match lookupZ (tetrahedra h) (SurfaceFace.tetrahedron face),
              lookupZ (triangles h) (SurfaceFace.triangle face) with
        | Some tetra, Some _ =>
            match expose_all (SurfaceFace.triangle face) tetra
                             (consume h face rest) [0; 1; 2; 3]%nat with
            | Ok h' => Ok (true, h')
            | Fault => Fault
            end
        | _, _ => Fault
        end
  end.

(** Modelled from the spec: [ConcaveHull::growSurface], "drives growFront
    in a loop until it returns false".  The loop runs on [fuel]; the result
    is [None] when the fuel runs out, and otherwise the state the loop
    stops in with the number of calls of [growFront] that returned true. *)
Fixpoint growSurface (fuel : nat) (maxCurvature : float) (h : ConcaveHull)
    : option (result (nat * ConcaveHull)) :=
  match fuel with
  | O => None
  | S fuel' =>
      match growFront maxCurvature h with
      | Fault => Some Fault
      | Ok (false, h') => Some (Ok (O, h'))
      | Ok (true, h') =>
          match growSurface fuel' maxCurvature h' with
          | Some (Ok (n, h'')) => Some (Ok (S n, h''))
          | r => r
          end
      end
  end.

(** Modelled from the spec: one more call of [growFront] by a caller that
    loops on it, on the state the previous call left. *)
Definition growFront_again (maxCurvature : float)
    (r : result (bool * ConcaveHull)) : result (bool * ConcaveHull) :=
  match r with
  | Ok (_, h) => growFront maxCurvature h
  | Fault => Fault
  end.

End Growth.

(** The flags of the mesh: [seen] of each tetrahedron, [is_surface] and
    [used] of each triangle. *)
Definition flags (h : ConcaveHull) : list bool * list (bool * bool) :=
  (map Tetrahedron.seen (tetrahedra h),
   map (fun tri => (Triangle.is_surface tri, Triangle.used tri)) (triangles h)).

(** ** The statements of the specification, to compare the code with *)

(** A sentinel ("outer") tetrahedron: one of its four vertex indices is
    invalid. *)
Definition sentinel (tetra : Tetrahedron.t) : Prop :=
  exists j, (j < 4)%nat /\ get4 (Tetrahedron.vertices tetra) j = -1.

(** The indices of a tetrahedron are either all invalid or all valid, as the
    constructor [Tetrahedron()] and a tetrahedralization given by four vertex
    indices leave them. *)
Definition all_or_none (tetra : Tetrahedron.t) : Prop :=
  forall j k, (j < 4)%nat -> (k < 4)%nat ->
    get4 (Tetrahedron.vertices tetra) j = -1 ->
    get4 (Tetrahedron.vertices tetra) k = -1.

(** The centroid of a tetrahedron: the sum of the quarters of its four
    vertices, in the order of its vertex indices. *)
Definition centroid (h : ConcaveHull) (tetra : Tetrahedron.t) : option Vector3d :=
  let v := Tetrahedron.vertices tetra in
  match lookupZ (vertices h) (get4 v 0), lookupZ (vertices h) (get4 v 1),
        lookupZ (vertices h) (get4 v 2), lookupZ (vertices h) (get4 v 3) with
  | Some p0, Some p1, Some p2, Some p3 =>
      Some (vadd (vadd (vadd (vadd vzero (vdiv p0 4)) (vdiv p1 4)) (vdiv p2 4))
                 (vdiv p3 4))
  | _, _, _, _ => None
  end.

(** The three corners of the [i]-th bounding triangle of a tetrahedron. *)
Definition corners (h : ConcaveHull) (tetra : Tetrahedron.t) (i : nat)
    : option (Vector3d * Vector3d * Vector3d) :=
  match lookupZ (triangles h) (get4 (Tetrahedron.triangles tetra) i) with
  | Some tri =>
      let v := Triangle.vertices tri in
      match lookupZ (vertices h) (get3 v 0), lookupZ (vertices h) (get3 v 1),
            lookupZ (vertices h) (get3 v 2) with
      | Some c0, Some c1, Some c2 => Some (c0, c1, c2)
      | _, _, _ => None
      end
  | None => None
  end.

(** The bounding triangles of the listed faces, when all the indices involved
    are in range; the four bounding triangles of a tetrahedron. *)
Fixpoint faces_of (h : ConcaveHull) (tetra : Tetrahedron.t) (faces : list nat)
    : option (list (Vector3d * Vector3d * Vector3d)) :=
  match faces with
  | [] => Some []
  | i :: faces' =>
      match corners h tetra i, faces_of h tetra faces' with
      | Some f, Some fs => Some (f :: fs)
      | _, _ => None
      end
  end.

Definition bounding_triangles (h : ConcaveHull) (tetra : Tetrahedron.t)
    : option (list (Vector3d * Vector3d * Vector3d)) :=
  faces_of h tetra [0; 1; 2; 3]%nat.

(** The signed distance of [x] from the plane of a triangle, scaled by the
    length of the triangle's normal. *)
Definition signed_distance (x : Vector3d) (f : Vector3d * Vector3d * Vector3d)
    : float :=
  let '(c0, c1, c2) := f in side_of x c0 c1 c2.

(** Two signed distances have opposite signs: one is negative and the other
    positive.  They agree otherwise; a distance of zero agrees with both
    signs. *)
Definition opposite_signs (x y : float) : bool :=
  ((x <? 0)%float && (0 <? y)%float) || ((0 <? x)%float && (y <? 0)%float).

Definition signs_agree (x y : float) : bool := negb (opposite_signs x y).

(** The rejection test of the loop body, on one face. *)
Definition rejected (pos mid : Vector3d) (f : Vector3d * Vector3d * Vector3d)
    : bool :=
  (signed_distance pos f * signed_distance mid f <? 0)%float.

(** The membership test as the specification words it: a sentinel has no
    interior; otherwise the point is inside iff on each of the four faces its
    sign agrees with the centroid's. *)
Definition inside_by_signs (h : ConcaveHull) (pos : Vector3d)
    (tetra : Tetrahedron.t) : option bool :=
  if outer tetra then Some false
  else
    match centroid h tetra, bounding_triangles h tetra with
    | Some mid, Some fs =>
        Some (forallb (fun f => signs_agree (signed_distance pos f)
                                            (signed_distance mid f)) fs)
    | _, _ => None
    end.

(** The lexicographic order of the triples (curvature, triangle,
    tetrahedron), with the comparisons of C++ on each component. *)
Definition lex_less (a b : SurfaceFace.t) : bool :=
  (SurfaceFace.curvature a <? SurfaceFace.curvature b)%float
  || ((SurfaceFace.curvature a =? SurfaceFace.curvature b)%float
      && ((SurfaceFace.triangle a <? SurfaceFace.triangle b)
          || ((SurfaceFace.triangle a =? SurfaceFace.triangle b)
              && (SurfaceFace.tetrahedron a <? SurfaceFace.tetrahedron b)))).

(** Two records differ in at least one field, compared as C++ compares
    them ([!=]). *)
Definition differ (a b : SurfaceFace.t) : bool :=
  negb (SurfaceFace.curvature a =? SurfaceFace.curvature b)%float
  || negb (SurfaceFace.triangle a =? SurfaceFace.triangle b)
  || negb (SurfaceFace.tetrahedron a =? SurfaceFace.tetrahedron b).

(** ** Exact geometry

    The exact value of a finite double as a rational number, and the signed
    distance of the specification on these values, without rounding: what
    "lying exactly on the plane" of a bounding triangle means. *)

Definition exact (x : float) : option Q :=
  match Prim2SF x with
  | S754_zero _ => Some 0%Q
  | S754_finite s m e =>
      Some ((if s then -1 else 1) * inject_Z (Zpos m) * Qpower 2 e)%Q
  | _ => None
  end.









(** ** Ranks of floats

    Every float is ranked by a triple of integers ([fkey]): the class (minus
    infinity, negative, zero, positive, plus infinity), then exponent and
    mantissa, negated for negative numbers.  On floats that are not NaN, [<?]
    is the lexicographic order of the ranks and [=?] is their equality; both
    are false as soon as an argument is NaN. *)

Definition key (f : spec_float) : Z * Z * Z :=
  match f with
  | S754_zero _ => (0, 0, 0)
  | S754_infinity s => (if s then -2 else 2, 0, 0)
  | S754_nan => (3, 0, 0)
  | S754_finite s m e => if s then (-1, - e, Zneg m) else (1, e, Zpos m)
  end.

Definition klt (a b : Z * Z * Z) : Prop :=
  let '(a1, a2, a3) := a in
  let '(b1, b2, b3) := b in
  a1 < b1 \/ (a1 = b1 /\ (a2 < b2 \/ (a2 = b2 /\ a3 < b3))).

Definition fkey (x : float) : Z * Z * Z := key (Prim2SF x).

Definition is_nanP (x : float) : Prop := Prim2SF x = S754_nan.

(** The comparator through the ranks of the curvatures. *)
Definition FaceLt (a b : SurfaceFace.t) : Prop :=
  ~ is_nanP (SurfaceFace.curvature a) /\ ~ is_nanP (SurfaceFace.curvature b) /\
  (klt (fkey (SurfaceFace.curvature a)) (fkey (SurfaceFace.curvature b)) \/
   (fkey (SurfaceFace.curvature a) = fkey (SurfaceFace.curvature b) /\
    (SurfaceFace.triangle a < SurfaceFace.triangle b \/
     (SurfaceFace.triangle a = SurfaceFace.triangle b /\
      SurfaceFace.tetrahedron a < SurfaceFace.tetrahedron b)))).

(** The records of [l] have no NaN curvature, and two of them that do not
    differ are identical. *)
Definition comparable (l : list SurfaceFace.t) : Prop :=
  (forall x, In x l -> is_nan (SurfaceFace.curvature x) = false) /\
  (forall x y, In x l -> In y l -> differ x y = false -> x = y).

(** ** Example meshes *)

(** One tetrahedron with corners at the origin and at distance [s] along the
    three axes; triangle [i] is the face opposite to vertex [3 - i]. *)
Definition corner_mesh (s : float) : ConcaveHull :=
  let tri a b c :=
    Triangle.mk false false (mkInt3 a b c) (mkInt3 (-1) (-1) (-1))
                (mkInt2 0 (-1)) (SurfaceFace.mk 0 (-1) 0) in
  mkConcaveHull []
    [mkVector3d 0 0 0; mkVector3d s 0 0; mkVector3d 0 s 0; mkVector3d 0 0 s]
    []
    [tri 0 1 2; tri 0 1 3; tri 0 2 3; tri 1 2 3]
    [Tetrahedron.mk (mkInt4 0 1 2 3) (mkInt4 0 1 2 3)
                    (mkInt4 (-1) (-1) (-1) (-1)) 0 false]
    (mkVector3d 0 0 0) [].

(** [2^-200]: the signed distances of [corner_mesh tiny] are of the order of
    [2^-600], and their products are below the least positive double. *)
Definition tiny : float := 0x1p-200%float.

Definition corner_tetra : Tetrahedron.t :=
  Tetrahedron.mk (mkInt4 0 1 2 3) (mkInt4 0 1 2 3) (mkInt4 (-1) (-1) (-1) (-1))
                 0 false.

(** The tetrahedron of [corner_mesh 1], not consumed, with its four faces
    in the candidate set: the frontier closing in from outside the hull. *)
Definition enclosed : ConcaveHull :=
  with_surface (corner_mesh 1)
    [SurfaceFace.mk 0 0 0; SurfaceFace.mk 0 1 0;
     SurfaceFace.mk 0 2 0; SurfaceFace.mk 0 3 0].



(** ** Bounds of the stores *)

(** An access within the bounds of the store it indexes. *)
Definition in_bounds (h : ConcaveHull) (a : access) : Prop :=
  match a_store a with
  | Vertices => 0 <= a_index a < Z.of_nat (length (vertices h))
  | Triangles => 0 <= a_index a < Z.of_nat (length (triangles h))
  end.

(** A run in which every access is within bounds when there is a result, and
    in which the last access, and no other, is out of bounds when there is
    none. *)
Definition stops_at_fault {A} (h : ConcaveHull) (m : M A) : Prop :=
  match snd m with
  | Some _ => Forall (in_bounds h) (fst m)
  | None =>
      exists l a, fst m = l ++ [a] /\ Forall (in_bounds h) l /\ ~ in_bounds h a
  end.

(** The indices that [insideTetrahedron] follows from a tetrahedron are in
    range: its four vertex indices, its four triangle indices and the three
    vertex indices of each of these triangles. *)
Definition well_indexed (h : ConcaveHull) (tetra : Tetrahedron.t) : Prop :=
  (forall j, (j < 4)%nat ->
     0 <= get4 (Tetrahedron.vertices tetra) j < Z.of_nat (length (vertices h))) /\
  (forall i, (i < 4)%nat ->
     0 <= get4 (Tetrahedron.triangles tetra) i < Z.of_nat (length (triangles h))) /\
  (forall i tri j, (i < 4)%nat -> (j < 3)%nat ->
     lookupZ (triangles h) (get4 (Tetrahedron.triangles tetra) i) = Some tri ->
     0 <= get3 (Triangle.vertices tri) j < Z.of_nat (length (vertices h))).

(** The number of faces that the loop of [insideTetrahedron] examines: those
    up to the first that rejects the point, that one included. *)
Fixpoint examined (pos mid : Vector3d)
    (fs : list (Vector3d * Vector3d * Vector3d)) : nat :=
  match fs with
  | [] => O
  | f :: fs' => if rejected pos mid f then 1%nat else S (examined pos mid fs')
  end.

(** Two meshes with the same geometry: the same vertices, and triangles on
    the same vertex indices.  Flags, edges, neighbours and candidates are
    free. *)
Definition same_geometry (h h' : ConcaveHull) : Prop :=
  vertices h = vertices h' /\
  map Triangle.vertices (triangles h) = map Triangle.vertices (triangles h').

(** Four corners of the unit square in the plane [z = 0], as one flat
    tetrahedron. *)
Definition flat_mesh : ConcaveHull :=
  let tri a b c :=
    Triangle.mk false false (mkInt3 a b c) (mkInt3 (-1) (-1) (-1))
                (mkInt2 0 (-1)) (SurfaceFace.mk 0 (-1) 0) in
  mkConcaveHull []
    [mkVector3d 0 0 0; mkVector3d 1 0 0; mkVector3d 0 1 0; mkVector3d 1 1 0]
    []
    [tri 0 1 2; tri 0 1 3; tri 0 2 3; tri 1 2 3]
    [Tetrahedron.mk (mkInt4 0 1 2 3) (mkInt4 0 1 2 3)
                    (mkInt4 (-1) (-1) (-1) (-1)) 0 false]
    (mkVector3d 0 0 0) [].

(** ** Equivalent keys of the candidate set

    [std::set] takes two keys for the same element when neither is before
    the other. *)
Definition equivalent (a b : SurfaceFace.t) : bool :=
  negb (FaceComp a b) && negb (FaceComp b a).

(** The curvatures along a set never decrease ([<=] of C++). *)
Definition curvature_sorted (s : list SurfaceFace.t) : Prop :=
  StronglySorted
    (fun a b => (SurfaceFace.curvature a <=? SurfaceFace.curvature b)%float = true)
    s.

(** * File names (raylib/rayparse.h, src/raytransients.cpp)

    A [std::string] is the list of its characters.  A call either returns,
    throws ([substr] throws [std::out_of_range] when its position is beyond
    the end of the string, the constructor of [std::vector] throws
    [std::length_error] beyond [max_size]) or is undefined (overflow of
    [int]).  [size_t] has 64 bits and [int] 32; the conversion of a [size_t]
    to [int] keeps the low 32 bits. *)

Inductive outcome (A : Type) : Type :=
| Returns (a : A)
| Throws
| Undefined.
Arguments Returns {A} a.
Arguments Throws {A}.
Arguments Undefined {A}.

Definition INT_MIN : Z := - 2 ^ 31.
Definition INT_MAX : Z := 2 ^ 31 - 1.

(** [(int)n] for a [size_t] [n]. *)
Definition to_int (n : Z) : Z := (n + 2 ^ 31) mod 2 ^ 32 - 2 ^ 31.

(** The value of an integer expression as a [size_t]. *)
Definition to_size_t (n : Z) : Z := n mod 2 ^ 64.

(** [a - b] on [int]. *)
Definition int_sub (a b : Z) : outcome Z :=
  if (INT_MIN <=? a - b) && (a - b <=? INT_MAX) then Returns (a - b)
  else Undefined.

(** [std::string::npos] *)
Definition npos : Z := 2 ^ 64 - 1.

(** [s.length()] *)
Definition size (s : list ascii) : Z := Z.of_nat (length s).

(** [s.substr(pos, count)]: the characters from [pos], at most [count] of
    them. *)
Definition substr (s : list ascii) (pos count : Z) : outcome (list ascii) :=
  if size s <? pos then Throws
  else Returns (firstn (Z.to_nat (Z.min count (size s - pos)))
                       (skipn (Z.to_nat pos) s)).

(** [a == b] on strings. *)
Fixpoint string_eqb (a b : list ascii) : bool :=
  match a, b with
  | [], [] => true
  | x :: a', y :: b' => Ascii.eqb x y && string_eqb a' b'
  | _, _ => false
  end.

(** [FileArgument::nameStub]:
    [name_.substr(0, std::max(0, (int)name_.length() - 4))] *)
Definition nameStub (name_ : list ascii) : outcome (list ascii) :=
  match int_sub (to_int (size name_)) 4 with
  | Returns d => substr name_ 0 (to_size_t (Z.max 0 d))
  | _ => Undefined
  end.

(** [FileArgument::nameExt]:
    [name_.substr(std::max(0, (int)name_.length() - 3))] *)
Definition nameExt (name_ : list ascii) : outcome (list ascii) :=
  match int_sub (to_int (size name_)) 3 with
  | Returns d => substr name_ (to_size_t (Z.max 0 d)) npos
  | _ => Undefined
  end.

Definition dot_ply : list ascii := ["."; "p"; "l"; "y"]%char.

Definition transient_ply : list ascii :=
  ["_"; "t"; "r"; "a"; "n"; "s"; "i"; "e"; "n"; "t"; "."; "p"; "l"; "y"]%char.

Definition fixed_ply : list ascii :=
  ["_"; "f"; "i"; "x"; "e"; "d"; "."; "p"; "l"; "y"]%char.

(** The file stub of [main] in raytransients.cpp:
    [string fileStub = file;
     if (file.substr(file.length()-4)==".ply")
       fileStub = file.substr(0,file.length()-4);]
    The subtraction is on [size_t]. *)
Definition fileStub (file : list ascii) : outcome (list ascii) :=
  match substr file (to_size_t (size file - 4)) npos with
  | Returns ext =>
      if string_eqb ext dot_ply
      then substr file 0 (to_size_t (size file - 4))
      else Returns file
  | Throws => Throws
  | Undefined => Undefined
  end.

(** The names of the two clouds that [main] saves:
    [fileStub + "_transient.ply"] and [fileStub + "_fixed.ply"]. *)
Definition saved_names (file : list ascii)
    : outcome (list ascii * list ascii) :=
  match fileStub file with
  | Returns stub => Returns (stub ++ transient_ply, stub ++ fixed_ply)
  | Throws => Throws
  | Undefined => Undefined
  end.

(** The last [n] characters of [s], all of [s] when it is shorter. *)
Definition last_chars (n : nat) (s : list ascii) : list ascii :=
  skipn (length s - n) s.

(** * Trajectory files (raylib/src/raytrajectory.cpp)

    A file that opens is its characters and what comes after them: the end
    of the file, or a read error (a path that opens but cannot be read, such
    as a directory, or a device that fails).  An input file stream is the
    characters still to read, what comes after them, and the three state
    bits: [ifs.eof()] is [eofbit] and [!ifs] is [failbit || badbit]. *)

Inductive ending := EndOfFile | ReadError.

Module File.
Record t := mk { chars : list ascii; last : ending }.
End File.

Module Ifstream.
Record t := mk { rest : list ascii; after : ending;
                 eofbit : bool; failbit : bool; badbit : bool }.
End Ifstream.

(** [ifstream ifs(fileName.c_str(), ios::in)] on a file that opens. *)
Definition open (f : File.t) : Ifstream.t :=
  Ifstream.mk (File.chars f) (File.last f) false false false.

(** [!ifs] *)
Definition fail (ifs : Ifstream.t) : bool :=
  Ifstream.failbit ifs || Ifstream.badbit ifs.

Definition newline : ascii := "010"%char.

(** The characters before the first newline and what follows that newline,
    [None] when the characters run out first. *)
Fixpoint take_line (l : list ascii) : list ascii * option (list ascii) :=
  match l with
  | [] => ([], None)
  | c :: l' =>
      if Ascii.eqb c newline then ([], Some l')
      else let '(line, r) := take_line l' in (c :: line, r)
  end.

Definition is_empty (l : list ascii) : bool :=
  match l with [] => true | _ => false end.

(** [std::getline(ifs, line)]: on a stream that is not good it sets
    [failbit] and leaves [line]; otherwise it reads up to the newline, which
    it drops.  When the characters run out first, at the end of the file it
    sets [eofbit], on a read error it sets [badbit] and not [eofbit]; in
    both cases also [failbit] when it has read nothing. *)
Definition getline (ifs : Ifstream.t) (line : list ascii)
    : Ifstream.t * list ascii :=
  if Ifstream.eofbit ifs || Ifstream.failbit ifs || Ifstream.badbit ifs then
    (Ifstream.mk (Ifstream.rest ifs) (Ifstream.after ifs)
                 (Ifstream.eofbit ifs) true (Ifstream.badbit ifs), line)
  else
    match take_line (Ifstream.rest ifs) with
    | (l, Some r) => (Ifstream.mk r (Ifstream.after ifs) false false false, l)
    | (l, None) =>
        match Ifstream.after ifs with
        | EndOfFile => (Ifstream.mk [] EndOfFile true (is_empty l) false, l)
        | ReadError => (Ifstream.mk [] ReadError false (is_empty l) true, l)
        end
    end.

(** [while (!ifs.eof()) { getline(ifs, line); size++; }], [None] when the
    fuel runs out: the loop is still running. *)
Fixpoint count_lines (fuel : nat) (ifs : Ifstream.t) (line : list ascii)
    (size : Z) : option (outcome Z) :=
  match fuel with
  | O => None
  | S fuel' =>
      if Ifstream.eofbit ifs then Some (Returns size)
      else
        let '(ifs', line') := getline ifs line in
        if size + 1 <=? INT_MAX
        then count_lines fuel' ifs' line' (size + 1)
        else Some Undefined
  end.

(** The loop over the [n] nodes:
    [if (!ifs) return false; getline(ifs, line); istringstream iss(line);]
    [None] stands for [return false]. *)
Fixpoint read_lines (n : nat) (ifs : Ifstream.t) (line : list ascii)
    : option (Ifstream.t * list ascii) :=
  match n with
  | O => Some (ifs, line)
  | S n' =>
      if fail ifs then None
      else let '(ifs', line') := getline ifs line in read_lines n' ifs' line'
  end.

(** The number of newline characters of a file. *)
Definition newlines (content : list ascii) : nat :=
  length (filter (fun c => Ascii.eqb c newline) content).

Section Load.

(** The nodes of a trajectory, and the node that [Node()] builds. *)
Variable Node : Type.
Variable Node_default : Node.

(** [Trajectory::load] on a file ([None] when it cannot be opened, the
    same on both openings) and the nodes of the trajectory before the call:
    the returned value and the nodes after the call; [None] when the fuel
    of the counting loop runs out.  [vector<Node> trajectory(size)] with
    [size = -1] asks for more than [max_size] nodes. *)
Definition load (fuel : nat) (file : option File.t) (nodes : list Node)
    : option (outcome (bool * list Node)) :=
  match file with
  | None => Some (Returns (false, nodes))
  | Some f =>
      let '(ifs, line) := getline (open f) [] in
      match count_lines fuel ifs line (-1) with
      | None => None
      | Some (Returns size) =>
          let '(ifs, line) := getline (open f) line in
          if size <? 0 then Some Throws
          else
            let trajectory := repeat Node_default (Z.to_nat size) in
            match read_lines (length trajectory) ifs line with
            | None => Some (Returns (false, nodes))
            | Some (ifs, _) =>
                if fail ifs then Some (Returns (false, nodes))
                else Some (Returns (true, trajectory))
            end
      | Some Throws => Some Throws
      | Some Undefined => Some Undefined
      end
  end.

End Load.

(** * The code on examples *)

(** The centroid of the unit corner tetrahedron is inside it, a point below
    its face [z = 0] is outside, and a vertex index beyond the vertex store
    is a fault. *)
Example insideTetrahedron_centroid :
  insideTetrahedron (corner_mesh 1) (mkVector3d 0.25 0.25 0.25) corner_tetra
  = Some true.
Proof. vm_compute. reflexivity. Qed.

Example insideTetrahedron_below :
  insideTetrahedron (corner_mesh 1) (mkVector3d 0.25 0.25 (-1)) corner_tetra
  = Some false.
Proof. vm_compute. reflexivity. Qed.

Example insideTetrahedron_fault :
  insideTetrahedron (corner_mesh 1) (mkVector3d 0.25 0.25 0.25)
    (Tetrahedron.mk (mkInt4 0 1 2 7) (mkInt4 0 1 2 3)
                    (mkInt4 (-1) (-1) (-1) (-1)) 0 false)
  = None.
Proof. vm_compute. reflexivity. Qed.

(** The accesses of the corner tetrahedron start with its four vertices,
    followed by its first triangle. *)
Example insideTetrahedron_accesses_corner :
  firstn 5 (insideTetrahedron_accesses (corner_mesh 1) (mkVector3d 0 0 0)
              corner_tetra)
  = [Access Vertices FromTetrahedron 0; Access Vertices FromTetrahedron 1;
     Access Vertices FromTetrahedron 2; Access Vertices FromTetrahedron 3;
     Access Triangles FromTetrahedron 0].
Proof. vm_compute. reflexivity. Qed.

(** Curvature first, then triangle, then tetrahedron; [+0] and [-0] are the
    same curvature. *)
Example FaceComp_by_curvature :
  FaceComp (SurfaceFace.mk 9 9 1) (SurfaceFace.mk 0 0 2) = true.
Proof. vm_compute. reflexivity. Qed.

Example FaceComp_by_triangle :
  FaceComp (SurfaceFace.mk 9 3 1) (SurfaceFace.mk 0 4 1) = true.
Proof. vm_compute. reflexivity. Qed.

Example FaceComp_by_tetrahedron :
  FaceComp (SurfaceFace.mk 2 3 0) (SurfaceFace.mk 5 3 (-0)) = true.
Proof. vm_compute. reflexivity. Qed.

Example set_of_list_sorts :
  set_of_list [SurfaceFace.mk 0 2 3; SurfaceFace.mk 0 1 3; SurfaceFace.mk 5 7 1;
               SurfaceFace.mk 0 1 3]
  = [SurfaceFace.mk 5 7 1; SurfaceFace.mk 0 1 3; SurfaceFace.mk 0 2 3].
Proof. vm_compute. reflexivity. Qed.

(** With [maxCurvature] below the curvature of the candidates the front
    does not move. *)
Example growSurface_enclosed_halts :
  growSurface (fun _ _ => 0%float) 1 (-1) enclosed = Some (Ok (O, enclosed)).
Proof. vm_compute. reflexivity. Qed.

(** * IEEE 754 facts about binary64 comparison and multiplication *)

Ltac key_finish :=
  split; intros;
  try discriminate; try reflexivity; try lia; try congruence;
  try (exfalso; match goal with H : (_, _, _) = (_, _, _) |- _ => injection H; lia end).

Ltac key_cases ex ey mx my :=
  destruct (Z.compare_spec ex ey);
  [ subst; rewrite Pos.compare_cont_spec; cbn;
    destruct (Pos.compare_spec mx my); cbn; subst; key_finish
  | key_finish | key_finish ].

Lemma SFltb_key x y :
  x <> S754_nan -> y <> S754_nan -> (SFltb x y = true <-> klt (key x) (key y)).
Proof.
  intros Hx Hy. unfold SFltb, SFcompare, klt, key.
  destruct x as [sx|sx| |sx mx ex], y as [sy|sy| |sy my ey]; try congruence;
    try destruct sx; try destruct sy; cbn; try solve [key_finish];
    key_cases ex ey mx my.
Qed.

Lemma SFeqb_key x y :
  x <> S754_nan -> y <> S754_nan -> (SFeqb x y = true <-> key x = key y).
Proof.
  intros Hx Hy. unfold SFeqb, SFcompare, key.
  destruct x as [sx|sx| |sx mx ex], y as [sy|sy| |sy my ey]; try congruence;
    try destruct sx; try destruct sy; cbn; try solve [key_finish];
    key_cases ex ey mx my.
Qed.

Lemma SFltb_nan_l y : SFltb S754_nan y = false.
Proof. reflexivity. Qed.

Lemma SFltb_nan_r x : SFltb x S754_nan = false.
Proof. destruct x; reflexivity. Qed.

Lemma SFeqb_nan_l y : SFeqb S754_nan y = false.
Proof. reflexivity. Qed.

Lemma SFeqb_nan_r x : SFeqb x S754_nan = false.
Proof. destruct x; reflexivity. Qed.

Lemma is_nanP_dec (x : float) : {is_nanP x} + {~ is_nanP x}.
Proof. unfold is_nanP. destruct (Prim2SF x); (left; reflexivity) || (right; discriminate). Defined.

(** [x <? y] and [x =? y] through the ranks. *)
Lemma ltb_key (x y : float) :
  (x <? y)%float = true <-> ~ is_nanP x /\ ~ is_nanP y /\ klt (fkey x) (fkey y).
Proof.
  rewrite ltb_spec. unfold fkey.
  destruct (is_nanP_dec x) as [Nx|Nx].
  { rewrite Nx, SFltb_nan_l. split; [discriminate | intros [H _]; now destruct H]. }
  destruct (is_nanP_dec y) as [Ny|Ny].
  { rewrite Ny, SFltb_nan_r. split; [discriminate | intros (_ & H & _); now destruct H]. }
  rewrite (SFltb_key _ _ Nx Ny). tauto.
Qed.

Lemma eqb_key (x y : float) :
  (x =? y)%float = true <-> ~ is_nanP x /\ ~ is_nanP y /\ fkey x = fkey y.
Proof.
  rewrite eqb_spec. unfold fkey.
  destruct (is_nanP_dec x) as [Nx|Nx].
  { rewrite Nx, SFeqb_nan_l. split; [discriminate | intros [H _]; now destruct H]. }
  destruct (is_nanP_dec y) as [Ny|Ny].
  { rewrite Ny, SFeqb_nan_r. split; [discriminate | intros (_ & H & _); now destruct H]. }
  rewrite (SFeqb_key _ _ Nx Ny). tauto.
Qed.

(** [is_nan x], that is [x != x], is the NaN test. *)
Lemma is_nan_spec (x : float) : is_nan x = true <-> is_nanP x.
Proof.
  unfold is_nan. rewrite negb_true_iff.
  destruct (x =? x)%float eqn:E.
  - apply eqb_key in E. split; [discriminate | tauto].
  - split; [intros _ | reflexivity].
    destruct (is_nanP_dec x) as [N|N]; [exact N | exfalso].
    assert ((x =? x)%float = true) by (apply eqb_key; tauto). congruence.
Qed.

Lemma Prim2SF_zero : Prim2SF 0%float = S754_zero false.
Proof. reflexivity. Qed.

(** A product is negative only if the factors have strictly opposite signs. *)
Lemma SFmul_neg (a b : spec_float) :
  SFltb (SF64mul a b) (S754_zero false) = true ->
  (SFltb a (S754_zero false) = true /\ SFltb (S754_zero false) b = true) \/
  (SFltb (S754_zero false) a = true /\ SFltb b (S754_zero false) = true).
Proof.
  unfold SF64mul, SFmul.
  destruct a as [sa|sa| |sa ma ea], b as [sb|sb| |sb mb eb];
    try (cbn; discriminate);
    try (destruct sa, sb; cbn; intros; try discriminate; tauto).
  unfold binary_round_aux.
  destruct (shr_fexp _ _ _ _ _) as [mrs' e'].
  destruct (shr_fexp _ _ _ _ _) as [mrs'' e''].
  destruct (shr_m mrs'') as [|m|m]; try (cbn; discriminate).
  destruct (Z.leb e'' (Z.sub emax prec));
    destruct sa, sb; cbn; intros; try discriminate; tauto.
Qed.


Lemma SFmul_zero_r (a b : spec_float) :
  SFeqb b (S754_zero false) = true ->
  SFltb (SF64mul a b) (S754_zero false) = false.
Proof.
  unfold SF64mul, SFmul.
  destruct b as [sb|sb| |sb mb eb]; try (destruct sb; cbn; discriminate);
    try (cbn; discriminate).
  intros _. destruct a as [sa|sa| |sa ma ea]; reflexivity.
Qed.

Lemma mul_neg (x y : float) :
  (x * y <? 0)%float = true ->
  ((x <? 0)%float = true /\ (0 <? y)%float = true) \/
  ((0 <? x)%float = true /\ (y <? 0)%float = true).
Proof.
  rewrite !ltb_spec, mul_spec, Prim2SF_zero. apply SFmul_neg.
Qed.


Lemma mul_zero_r (x y : float) :
  (y =? 0)%float = true -> (x * y <? 0)%float = false.
Proof.
  rewrite eqb_spec, ltb_spec, mul_spec, Prim2SF_zero. apply SFmul_zero_r.
Qed.

(** Rounding keeps a mantissa that is not negative not negative, so that the
    rounded product of two finite numbers is never NaN. *)
Lemma shr_1_nonneg mrs : 0 <= shr_m mrs -> 0 <= shr_m (shr_1 mrs).
Proof.
  destruct mrs as [m r s0]. cbn.
  destruct m as [|[p|p|]|[p|p|]]; cbn; lia.
Qed.

Lemma iter_pos_shr_1_nonneg p :
  forall mrs, 0 <= shr_m mrs -> 0 <= shr_m (iter_pos shr_1 p mrs).
Proof.
  induction p as [p IH|p IH|]; intros mrs H; cbn.
  - apply IH, IH. now apply shr_1_nonneg.
  - now apply IH, IH.
  - now apply shr_1_nonneg.
Qed.

Lemma shr_fexp_nonneg m e l :
  0 <= m -> 0 <= shr_m (fst (shr_fexp prec emax m e l)).
Proof.
  intros H. unfold shr_fexp, shr.
  assert (R : 0 <= shr_m (shr_record_of_loc m l))
    by (destruct l as [|[| |]]; exact H).
  destruct (Z.sub _ _); cbn [fst]; try exact R.
  now apply iter_pos_shr_1_nonneg.
Qed.

Lemma round_nearest_even_nonneg m l : 0 <= m -> 0 <= round_nearest_even m l.
Proof.
  intros H. unfold round_nearest_even.
  destruct l as [|[| |]]; try exact H; [destruct (Z.even m)|]; lia.
Qed.

Lemma binary_round_aux_not_nan sx mx ex :
  binary_round_aux prec emax sx (Zpos mx) ex loc_Exact <> S754_nan.
Proof.
  unfold binary_round_aux.
  pose proof (shr_fexp_nonneg (Zpos mx) ex loc_Exact ltac:(lia)) as H1.
  destruct (shr_fexp prec emax (Zpos mx) ex loc_Exact) as [mrs' e'].
  cbn [fst] in H1.
  pose proof (shr_fexp_nonneg
                (round_nearest_even (shr_m mrs') (loc_of_shr_record mrs'))
                e' loc_Exact (round_nearest_even_nonneg _ _ H1)) as H2.
  destruct (shr_fexp prec emax _ e' loc_Exact) as [mrs'' e''].
  cbn [fst] in H2.
  destruct (shr_m mrs'') as [|m|m]; [discriminate | | lia].
  destruct (Z.leb e'' (Z.sub emax prec)); discriminate.
Qed.

(** The product of a negative and a positive number is negative or zero;
    it is zero when it underflows. *)
Lemma SFmul_opposite (a b : spec_float) :
  (SFltb a (S754_zero false) = true /\ SFltb (S754_zero false) b = true) \/
  (SFltb (S754_zero false) a = true /\ SFltb b (S754_zero false) = true) ->
  SFltb (SF64mul a b) (S754_zero false) = true \/
  SFeqb (SF64mul a b) (S754_zero false) = true.
Proof.
  unfold SF64mul, SFmul.
  destruct a as [sa|sa| |sa ma ea], b as [sb|sb| |sb mb eb];
    try (destruct sa; cbn; intros [[? ?]|[? ?]]; discriminate);
    try (destruct sb; cbn; intros [[? ?]|[? ?]]; discriminate);
    try (cbn; intros [[? ?]|[? ?]]; discriminate);
    try (destruct sa, sb; cbn; intros [[? ?]|[? ?]]; try discriminate;
         left; reflexivity).
  intros H.
  assert (X : xorb sa sb = true).
  { destruct sa, sb; cbn in H; destruct H as [[? ?]|[? ?]];
      try discriminate; reflexivity. }
  rewrite X.
  pose proof (binary_round_aux_not_nan true (Pos.mul ma mb) (Z.add ea eb)) as N.
  unfold binary_round_aux in *.
  destruct (shr_fexp prec emax _ _ _) as [mrs' e'].
  destruct (shr_fexp prec emax _ _ _) as [mrs'' e''].
  destruct (shr_m mrs'') as [|m|m].
  - right. reflexivity.
  - left. destruct (Z.leb e'' (Z.sub emax prec)); reflexivity.
  - now destruct N.
Qed.

Lemma mul_opposite (x y : float) :
  ((x <? 0)%float = true /\ (0 <? y)%float = true) \/
  ((0 <? x)%float = true /\ (y <? 0)%float = true) ->
  (x * y <? 0)%float = true \/ (x * y =? 0)%float = true.
Proof.
  rewrite !ltb_spec, eqb_spec, mul_spec, Prim2SF_zero. apply SFmul_opposite.
Qed.

(** A number that is negative or positive is not zero. *)
Lemma signed_not_zero (x : float) :
  (x <? 0)%float = true \/ (0 <? x)%float = true -> (x =? 0)%float = false.
Proof.
  rewrite !ltb_spec, eqb_spec, Prim2SF_zero.
  destruct (Prim2SF x) as [s|s| |s m e]; try destruct s; cbn;
    intros [?|?]; try discriminate; reflexivity.
Qed.

(** * insideTetrahedron *)

Lemma snd_bind {A B} (m : M A) (f : A -> M B) :
  snd (bind m f) = match snd m with Some a => snd (f a) | None => None end.
Proof. destruct m as [l [a|]]; cbn; [destruct (f a) |]; reflexivity. Qed.

Lemma fst_bind {A B} (m : M A) (f : A -> M B) :
  fst (bind m f) = fst m ++ match snd m with Some a => fst (f a) | None => [] end.
Proof.
  destruct m as [l [a|]]; cbn; [destruct (f a); reflexivity |].
  now rewrite app_nil_r.
Qed.

Lemma outer_spec (tetra : Tetrahedron.t) : outer tetra = true <-> sentinel tetra.
Proof.
  unfold outer, sentinel. rewrite !orb_true_iff, !Z.eqb_eq. split.
  - intros [[[H|H]|H]|H];
      [exists 0%nat | exists 1%nat | exists 2%nat | exists 3%nat]; split; auto; lia.
  - intros (j & Hj & H).
    destruct j as [|[|[|[|j]]]]; try lia; cbn in H; tauto.
Qed.

Lemma outer_false (tetra : Tetrahedron.t) : outer tetra = false <-> ~ sentinel tetra.
Proof.
  rewrite <- outer_spec. destruct (outer tetra); split; congruence.
Qed.

(** The first loop computes the centroid. *)
Lemma mid_loop_centroid (h : ConcaveHull) (tetra : Tetrahedron.t) :
  snd (mid_loop h tetra [0; 1; 2; 3]%nat vzero) = centroid h tetra.
Proof.
  unfold centroid. cbn [mid_loop]. unfold readVertex.
  rewrite !snd_bind; cbn [snd].
  destruct (lookupZ (vertices h) (get4 (Tetrahedron.vertices tetra) 0)); [|reflexivity].
  rewrite !snd_bind; cbn [snd].
  destruct (lookupZ (vertices h) (get4 (Tetrahedron.vertices tetra) 1)); [|reflexivity].
  rewrite !snd_bind; cbn [snd].
  destruct (lookupZ (vertices h) (get4 (Tetrahedron.vertices tetra) 2)); [|reflexivity].
  rewrite !snd_bind; cbn [snd].
  destruct (lookupZ (vertices h) (get4 (Tetrahedron.vertices tetra) 3)); reflexivity.
Qed.

Lemma read_vs_snd (h : ConcaveHull) (tetra : Tetrahedron.t) (i j : nat) :
  snd (read_vs h tetra i j) =
  match lookupZ (triangles h) (get4 (Tetrahedron.triangles tetra) i) with
  | Some tri => lookupZ (vertices h) (get3 (Triangle.vertices tri) j)
  | None => None
  end.
Proof. unfold read_vs. rewrite snd_bind. reflexivity. Qed.

Lemma corners_inv h tetra i c0 c1 c2 :
  corners h tetra i = Some (c0, c1, c2) ->
  snd (read_vs h tetra i 0) = Some c0 /\
  snd (read_vs h tetra i 1) = Some c1 /\
  snd (read_vs h tetra i 2) = Some c2.
Proof.
  rewrite !read_vs_snd. unfold corners.
  destruct (lookupZ (triangles h) _) as [tri|]; [|discriminate].
  destruct (lookupZ _ (get3 _ 0)); [|discriminate].
  destruct (lookupZ _ (get3 _ 1)); [|discriminate].
  destruct (lookupZ _ (get3 _ 2)); [|discriminate].
  intros E; injection E; intros; subst; auto.
Qed.

(** The second loop is the conjunction of the tests of the faces. *)
Lemma face_loop_snd h pos mid tetra faces :
  forall fs, faces_of h tetra faces = Some fs ->
  snd (face_loop h pos mid tetra faces)
  = Some (forallb (fun f => negb (rejected pos mid f)) fs).
Proof.
  induction faces as [|i faces IH]; intros fs Hfs; cbn in Hfs.
  - injection Hfs as <-. reflexivity.
  - destruct (corners h tetra i) as [[[c0 c1] c2]|] eqn:Hc; [|discriminate].
    destruct (faces_of h tetra faces) as [fs'|]; [|discriminate].
    injection Hfs as <-.
    destruct (corners_inv _ _ _ _ _ _ Hc) as (H0 & H1 & H2).
    cbn [face_loop]. rewrite snd_bind, H0, snd_bind, H1, snd_bind, H2.
    cbn [forallb]. unfold rejected at 1. cbn [signed_distance].
    destruct (side_of pos c0 c1 c2 * side_of mid c0 c1 c2 <? 0)%float; cbn.
    + reflexivity.
    + now apply IH.
Qed.

Lemma insideTetrahedron_closed h pos tetra mid fs :
  ~ sentinel tetra ->
  centroid h tetra = Some mid ->
  bounding_triangles h tetra = Some fs ->
  insideTetrahedron h pos tetra
  = Some (forallb (fun f => negb (rejected pos mid f)) fs).
Proof.
  intros Hs Hm Hf. apply outer_false in Hs.
  unfold insideTetrahedron, insideTetrahedron_run. rewrite Hs.
  rewrite snd_bind, mid_loop_centroid, Hm.
  now apply face_loop_snd.
Qed.

Lemma insideTetrahedron_sentinel h pos tetra :
  sentinel tetra -> insideTetrahedron_run h pos tetra = ([], Some false).
Proof.
  intros Hs. apply outer_spec in Hs.
  unfold insideTetrahedron_run. now rewrite Hs.
Qed.

Lemma rejected_opposite pos mid f :
  rejected pos mid f = true ->
  opposite_signs (signed_distance pos f) (signed_distance mid f) = true.
Proof.
  unfold rejected, opposite_signs. intros H.
  destruct (mul_neg _ _ H) as [[-> ->]|[-> ->]]; cbn; [reflexivity|].
  apply orb_true_r.
Qed.

(** Where no product of two distances that are not zero is zero, the test
    rejects exactly the opposite signs. *)
Lemma opposite_rejected pos mid f :
  ((signed_distance pos f * signed_distance mid f =? 0)%float = true ->
   (signed_distance pos f =? 0)%float = true \/
   (signed_distance mid f =? 0)%float = true) ->
  opposite_signs (signed_distance pos f) (signed_distance mid f) = true ->
  rejected pos mid f = true.
Proof.
  unfold opposite_signs, rejected. intros U O.
  rewrite orb_true_iff, !andb_true_iff in O.
  destruct (mul_opposite _ _ O) as [L|Z]; [exact L|].
  exfalso. destruct (U Z) as [Z1|Z1].
  - rewrite signed_not_zero in Z1; [discriminate | tauto].
  - rewrite signed_not_zero in Z1; [discriminate | tauto].
Qed.

(** C1, as the code has it.  A tetrahedron with an invalid vertex index is
    never entered: the answer is false.  For any other tetrahedron whose
    indices are in range, the answer is true exactly when on none of the four
    bounding triangles the double-precision product of the signed distance of
    the point and the signed distance of the centroid is negative.  Agreement
    of the signs on the four faces is enough for the answer true, and the
    answer false means that on some face the two signs are opposite.  Where
    no product of two distances that are not zero underflows to zero, the
    answer is true exactly when the signs agree on the four faces. *)
Theorem insideTetrahedron_product_test (h : ConcaveHull) (pos : Vector3d)
    (tetra : Tetrahedron.t) :
  (sentinel tetra -> insideTetrahedron h pos tetra = Some false) /\
  (~ sentinel tetra ->
   forall mid fs,
     centroid h tetra = Some mid ->
     bounding_triangles h tetra = Some fs ->
     exists b,
       insideTetrahedron h pos tetra = Some b /\
       (b = true <->
        forall f, In f fs ->
          (signed_distance pos f * signed_distance mid f <? 0)%float = false) /\
       ((forall f, In f fs ->
           signs_agree (signed_distance pos f) (signed_distance mid f) = true) ->
        b = true) /\
       (b = false ->
        exists f, In f fs /\
          opposite_signs (signed_distance pos f) (signed_distance mid f) = true) /\
       ((forall f, In f fs ->
           (signed_distance pos f * signed_distance mid f =? 0)%float = true ->
           (signed_distance pos f =? 0)%float = true \/
           (signed_distance mid f =? 0)%float = true) ->
        (b = true <->
         forall f, In f fs ->
           signs_agree (signed_distance pos f) (signed_distance mid f) = true))).
Proof.
  split.
  - intros Hs. unfold insideTetrahedron.
    now rewrite (insideTetrahedron_sentinel h pos tetra Hs).
  - intros Hs mid fs Hm Hf.
    exists (forallb (fun f => negb (rejected pos mid f)) fs).
    split; [now apply insideTetrahedron_closed|].
    assert (Test : forallb (fun f => negb (rejected pos mid f)) fs = true <->
              forall f, In f fs ->
                (signed_distance pos f * signed_distance mid f <? 0)%float = false).
    { rewrite forallb_forall. unfold rejected.
      split; intros H f Hin; specialize (H f Hin).
      - now apply negb_true_iff in H.
      - now apply negb_true_iff. }
    assert (Agree : (forall f, In f fs ->
              signs_agree (signed_distance pos f) (signed_distance mid f) = true) ->
            forallb (fun f => negb (rejected pos mid f)) fs = true).
    { intros H. apply forallb_forall. intros f Hin. specialize (H f Hin).
      unfold signs_agree in H. apply negb_true_iff in H.
      destruct (rejected pos mid f) eqn:R; [|reflexivity].
      apply rejected_opposite in R. congruence. }
    assert (Opp : forallb (fun f => negb (rejected pos mid f)) fs = false ->
            exists f, In f fs /\
              opposite_signs (signed_distance pos f) (signed_distance mid f) = true).
    { intros H.
      destruct (existsb (rejected pos mid) fs) eqn:E.
      - apply existsb_exists in E. destruct E as (f & Hin & R).
        exists f. split; [exact Hin|]. now apply rejected_opposite.
      - exfalso.
        assert (F : forallb (fun f => negb (rejected pos mid f)) fs = true).
        { apply forallb_forall. intros f Hin. apply negb_true_iff.
          destruct (rejected pos mid f) eqn:R; [|reflexivity].
          assert (existsb (rejected pos mid) fs = true)
            by (apply existsb_exists; eauto).
          congruence. }
        congruence. }
    split; [exact Test|]. split; [exact Agree|]. split; [exact Opp|].
    intros U. split; [|exact Agree].
    rewrite forallb_forall. intros H f Hin. specialize (H f Hin).
    apply negb_true_iff in H. unfold signs_agree. apply negb_true_iff.
    destruct (opposite_signs _ _) eqn:O; [|reflexivity].
    rewrite (opposite_rejected pos mid f (U f Hin) O) in H. discriminate.
Qed.

(** C1, as stated, fails.  The point [(0, 0, -2^-200)] lies strictly below
    the face [z = 0] of the tetrahedron of [corner_mesh tiny], whose centroid
    lies strictly above it: the two signed distances are [-2^-600] and
    [2^-602].  Their product underflows to [-0], which is not [< 0], and
    [insideTetrahedron] answers true. *)
Lemma insideTetrahedron_underflow :
  let h := corner_mesh tiny in
  let pos := mkVector3d 0 0 (- tiny) in
  ~ sentinel corner_tetra /\
  insideTetrahedron h pos corner_tetra = Some true /\
  inside_by_signs h pos corner_tetra = Some false /\
  exists mid f,
    centroid h corner_tetra = Some mid /\
    corners h corner_tetra 0 = Some f /\
    (signed_distance pos f <? 0)%float = true /\
    (0 <? signed_distance mid f)%float = true.
Proof.
  cbv zeta. split; [|split; [|split]].
  - apply outer_false. reflexivity.
  - vm_compute. reflexivity.
  - vm_compute. reflexivity.
  - eexists. eexists. split; [vm_compute; reflexivity|].
    split; [vm_compute; reflexivity|]. split; vm_compute; reflexivity.
Qed.

(** The product test at work on the tetrahedron of [corner_mesh 1]: an invalid
    vertex index gives false, and the point [(1/4, 1/4, 1/4)] is inside. *)
Lemma insideTetrahedron_product_test_witness :
  insideTetrahedron (corner_mesh 1) (mkVector3d 0.25 0.25 0.25)
    (Tetrahedron.mk (mkInt4 0 (-1) 2 3) (mkInt4 0 1 2 3)
                    (mkInt4 (-1) (-1) (-1) (-1)) 0 false) = Some false /\
  exists b,
    insideTetrahedron (corner_mesh 1) (mkVector3d 0.25 0.25 0.25) corner_tetra
    = Some b /\ b = true.
Proof.
  split.
  - apply (proj1 (insideTetrahedron_product_test _ _ _)).
    exists 1%nat. split; [lia | reflexivity].
  - destruct (proj2 (insideTetrahedron_product_test (corner_mesh 1)
                       (mkVector3d 0.25 0.25 0.25) corner_tetra))
      with (mid := mkVector3d 0.25 0.25 0.25)
           (fs := [(mkVector3d 0 0 0, mkVector3d 1 0 0, mkVector3d 0 1 0);
                   (mkVector3d 0 0 0, mkVector3d 1 0 0, mkVector3d 0 0 1);
                   (mkVector3d 0 0 0, mkVector3d 0 1 0, mkVector3d 0 0 1);
                   (mkVector3d 1 0 0, mkVector3d 0 1 0, mkVector3d 0 0 1)])
      as (b & Hb & _ & Hagree & _).
    + apply outer_false. reflexivity.
    + vm_compute. reflexivity.
    + vm_compute. reflexivity.
    + exists b. split; [exact Hb|]. apply Hagree.
      intros f [<-|[<-|[<-|[<-|[]]]]]; vm_compute; reflexivity.
Defined.




(** * The accesses of insideTetrahedron *)

Lemma mid_loop_accesses h tetra js :
  forall mid a, In a (fst (mid_loop h tetra js mid)) ->
  exists j, In j js /\
    a = Access Vertices FromTetrahedron (get4 (Tetrahedron.vertices tetra) j).
Proof.
  induction js as [|j js IH]; intros mid a; cbn [mid_loop].
  - intros [].
  - rewrite fst_bind. unfold readVertex; cbn [fst snd].
    intros Hin. apply in_app_or in Hin. destruct Hin as [[<-|[]]|Hin].
    + exists j. split; [now left | reflexivity].
    + destruct (lookupZ (vertices h) _) as [v|]; [|destruct Hin].
      destruct (IH _ _ Hin) as (j' & Hj' & ->).
      exists j'. split; [now right | reflexivity].
Qed.

Lemma read_vs_accesses h tetra i j a :
  In a (fst (read_vs h tetra i j)) ->
  a = Access Triangles FromTetrahedron (get4 (Tetrahedron.triangles tetra) i) \/
  (a_store a = Vertices /\ a_origin a = FromTriangle).
Proof.
  unfold read_vs. rewrite fst_bind. unfold readTriangle; cbn [fst snd].
  intros Hin. apply in_app_or in Hin. destruct Hin as [[<-|[]]|Hin]; [now left|].
  destruct (lookupZ (triangles h) _) as [tri|]; [|destruct Hin].
  cbn in Hin. destruct Hin as [<-|[]]. right. split; reflexivity.
Qed.

Lemma face_loop_accesses h pos mid tetra faces :
  forall a, In a (fst (face_loop h pos mid tetra faces)) ->
  (exists i, In i faces /\
     a = Access Triangles FromTetrahedron (get4 (Tetrahedron.triangles tetra) i)) \/
  (a_store a = Vertices /\ a_origin a = FromTriangle).
Proof.
  induction faces as [|i faces IH]; intros a; cbn [face_loop].
  - intros [].
  - assert (R : forall j, In a (fst (read_vs h tetra i j)) ->
        (exists i', In i' (i :: faces) /\
           a = Access Triangles FromTetrahedron
                 (get4 (Tetrahedron.triangles tetra) i')) \/
        (a_store a = Vertices /\ a_origin a = FromTriangle)).
    { intros j Hin. destruct (read_vs_accesses _ _ _ _ _ Hin) as [->|H];
        [left; exists i; split; [now left | reflexivity] | now right]. }
    rewrite fst_bind. intros Hin. apply in_app_or in Hin.
    destruct Hin as [Hin|Hin]; [now apply (R 0%nat)|].
    destruct (snd (read_vs h tetra i 0)) as [vs0|]; [|destruct Hin].
    rewrite fst_bind in Hin. apply in_app_or in Hin.
    destruct Hin as [Hin|Hin]; [now apply (R 1%nat)|].
    destruct (snd (read_vs h tetra i 1)) as [vs1|]; [|destruct Hin].
    rewrite fst_bind in Hin. apply in_app_or in Hin.
    destruct Hin as [Hin|Hin]; [now apply (R 2%nat)|].
    destruct (snd (read_vs h tetra i 2)) as [vs2|]; [|destruct Hin].
    destruct (_ <? _)%float; [destruct Hin|].
    destruct (IH _ Hin) as [(i' & Hi' & ->)|H]; [left|now right].
    exists i'. split; [now right | reflexivity].
Qed.

(** C9, as the code has it.  Whatever [insideTetrahedron] reads, it reads
    after the test of the four vertex indices: every access is made for a
    tetrahedron whose four vertex indices are valid, so the vertex store is
    never indexed with an invalid vertex index of the tetrahedron.  The
    accesses are of three kinds: the vertex store at a vertex index of the
    tetrahedron, the triangle store at one of its triangle indices, which no
    test guards, and the vertex store at a vertex index of such a triangle. *)
Theorem insideTetrahedron_accesses_guarded (h : ConcaveHull) (pos : Vector3d)
    (tetra : Tetrahedron.t) (a : access) :
  In a (insideTetrahedron_accesses h pos tetra) ->
  (forall j, (j < 4)%nat -> get4 (Tetrahedron.vertices tetra) j <> -1) /\
  (a_store a = Vertices -> a_origin a = FromTetrahedron -> a_index a <> -1) /\
  ((exists j, (j < 4)%nat /\
      a = Access Vertices FromTetrahedron (get4 (Tetrahedron.vertices tetra) j)) \/
   (exists i, (i < 4)%nat /\
      a = Access Triangles FromTetrahedron (get4 (Tetrahedron.triangles tetra) i)) \/
   (a_store a = Vertices /\ a_origin a = FromTriangle)).
Proof.
  unfold insideTetrahedron_accesses, insideTetrahedron_run.
  destruct (outer tetra) eqn:Ho; [intros []|].
  assert (Hv : forall j, (j < 4)%nat -> get4 (Tetrahedron.vertices tetra) j <> -1).
  { intros j Hj E. apply outer_false in Ho. apply Ho. now exists j. }
  assert (In4 : forall j, In j [0; 1; 2; 3]%nat -> (j < 4)%nat).
  { intros j [<-|[<-|[<-|[<-|[]]]]]; lia. }
  rewrite fst_bind. intros Hin. apply in_app_or in Hin.
  assert (K : (exists j, (j < 4)%nat /\
      a = Access Vertices FromTetrahedron (get4 (Tetrahedron.vertices tetra) j)) \/
   (exists i, (i < 4)%nat /\
      a = Access Triangles FromTetrahedron (get4 (Tetrahedron.triangles tetra) i)) \/
   (a_store a = Vertices /\ a_origin a = FromTriangle)).
  { destruct Hin as [Hin|Hin].
    - destruct (mid_loop_accesses _ _ _ _ _ Hin) as (j & Hj & ->).
      left. exists j. split; [now apply In4 | reflexivity].
    - destruct (snd (mid_loop _ _ _ _)) as [mid|]; [|destruct Hin].
      destruct (face_loop_accesses _ _ _ _ _ _ Hin) as [(i & Hi & ->)|H].
      + right. left. exists i. split; [now apply In4 | reflexivity].
      + right. now right. }
  split; [exact Hv|]. split; [|exact K].
  intros Hst Hor.
  destruct K as [(j & Hj & ->)|[(i & Hi & ->)|[_ Ho']]].
  - cbn. now apply Hv.
  - discriminate Hst.
  - congruence.
Qed.

(** C9, as stated, fails for the triangle store.  The tetrahedron below has
    four valid vertex indices and the triangle index [-1] in its first slot:
    [insideTetrahedron] indexes [triangles] with it. *)
Lemma insideTetrahedron_reads_triangle_minus_one :
  let tetra := Tetrahedron.mk (mkInt4 0 1 2 3) (mkInt4 (-1) 1 2 3)
                              (mkInt4 (-1) (-1) (-1) (-1)) 0 false in
  ~ sentinel tetra /\
  In (Access Triangles FromTetrahedron (-1))
     (insideTetrahedron_accesses (corner_mesh 1) (mkVector3d 0 0 0) tetra).
Proof.
  cbv zeta. split.
  - apply outer_false. reflexivity.
  - vm_compute. do 4 right. left. reflexivity.
Qed.

(** On [corner_mesh 1] the first access of [insideTetrahedron] reads vertex 0
    of the tetrahedron, whose index is valid. *)
Lemma insideTetrahedron_accesses_guarded_witness :
  (forall j, (j < 4)%nat -> get4 (Tetrahedron.vertices corner_tetra) j <> -1) /\
  a_index (Access Vertices FromTetrahedron 0) <> -1.
Proof.
  destruct (insideTetrahedron_accesses_guarded (corner_mesh 1)
              (mkVector3d 0 0 0) corner_tetra (Access Vertices FromTetrahedron 0))
    as (Hv & Hi & _).
  - vm_compute. left. reflexivity.
  - split; [exact Hv|]. apply Hi; reflexivity.
Defined.

(** * Tetrahedron::valid *)

(** C8, as the code has it.  [valid()] looks at the first vertex index only:
    it is false iff that index is invalid.  A tetrahedron that is not valid
    is a sentinel for [insideTetrahedron]; the converse holds for the
    tetrahedra whose indices are all invalid or all valid, on which [valid()]
    and the test of [insideTetrahedron] classify alike. *)
Theorem valid_first_index (tetra : Tetrahedron.t) :
  (Tetrahedron.valid tetra = false <->
   get4 (Tetrahedron.vertices tetra) 0 = -1) /\
  (Tetrahedron.valid tetra = false -> sentinel tetra) /\
  (all_or_none tetra ->
   (Tetrahedron.valid tetra = false <-> sentinel tetra) /\
   Tetrahedron.valid tetra = negb (outer tetra)).
Proof.
  assert (V : Tetrahedron.valid tetra = false <->
              get4 (Tetrahedron.vertices tetra) 0 = -1).
  { unfold Tetrahedron.valid. rewrite negb_false_iff. apply Z.eqb_eq. }
  assert (S : Tetrahedron.valid tetra = false -> sentinel tetra).
  { intros H. exists 0%nat. split; [lia | now apply V]. }
  split; [exact V|]. split; [exact S|].
  intros A.
  assert (B : sentinel tetra -> Tetrahedron.valid tetra = false).
  { intros (j & Hj & E). apply V. apply (A j 0%nat); auto; lia. }
  split; [split; assumption|].
  destruct (outer tetra) eqn:Ho; cbn.
  - apply B. now apply outer_spec.
  - apply not_false_is_true. intros Hv.
    apply S, outer_spec in Hv. congruence.
Qed.

(** C8, as stated, fails: with the vertex indices [0, -1, 2, 3] the
    tetrahedron is valid for [valid()] and a sentinel for
    [insideTetrahedron]. *)
Lemma valid_misses_sentinel :
  let tetra := Tetrahedron.mk (mkInt4 0 (-1) 2 3) (mkInt4 0 1 2 3)
                              (mkInt4 (-1) (-1) (-1) (-1)) 0 false in
  Tetrahedron.valid tetra = true /\ sentinel tetra /\ outer tetra = true /\
  insideTetrahedron (corner_mesh 1) (mkVector3d 0.25 0.25 0.25) tetra = Some false.
Proof.
  cbv zeta. split; [reflexivity|]. split; [|split; reflexivity].
  exists 1%nat. split; [lia | reflexivity].
Qed.

(** A tetrahedron with its four vertex indices invalid, as [Tetrahedron()]
    leaves them, is not valid, and a sentinel. *)
Lemma valid_first_index_witness :
  let tetra := Tetrahedron.mk (mkInt4 (-1) (-1) (-1) (-1)) (mkInt4 0 0 0 0)
                              (mkInt4 0 0 0 0) (-1) false in
  sentinel tetra /\ Tetrahedron.valid tetra = negb (outer tetra).
Proof.
  cbv zeta.
  pose proof (valid_first_index
    (Tetrahedron.mk (mkInt4 (-1) (-1) (-1) (-1)) (mkInt4 0 0 0 0)
                    (mkInt4 0 0 0 0) (-1) false)) as (_ & S & A).
  split.
  - apply S. reflexivity.
  - apply A. intros j k Hj Hk _.
    destruct k as [|[|[|[|k]]]]; try lia; reflexivity.
Defined.

(** * FaceComp *)

Lemma klt_irrefl k : ~ klt k k.
Proof. destruct k as [[k1 k2] k3]. cbn. lia. Qed.

Lemma klt_trans k l m : klt k l -> klt l m -> klt k m.
Proof.
  destruct k as [[k1 k2] k3], l as [[l1 l2] l3], m as [[m1 m2] m3]. cbn. lia.
Qed.

Lemma klt_total k l : klt k l \/ k = l \/ klt l k.
Proof.
  destruct k as [[k1 k2] k3], l as [[l1 l2] l3]. cbn.
  destruct (Z.lt_total k1 l1) as [|[|]]; [lia | | lia].
  destruct (Z.lt_total k2 l2) as [|[|]]; [lia | | lia].
  destruct (Z.lt_total k3 l3) as [|[|]]; [lia | | lia].
  subst. tauto.
Qed.

Lemma FaceComp_FaceLt (a b : SurfaceFace.t) : FaceComp a b = true <-> FaceLt a b.
Proof.
  unfold FaceComp, FaceLt.
  destruct (SurfaceFace.curvature a =? SurfaceFace.curvature b)%float eqn:E.
  - apply eqb_key in E. destruct E as (Na & Nb & K). rewrite K.
    pose proof (klt_irrefl (fkey (SurfaceFace.curvature b))).
    destruct (Z.eqb_spec (SurfaceFace.triangle a) (SurfaceFace.triangle b));
      rewrite Z.ltb_lt; intuition lia.
  - rewrite ltb_key. split; [tauto|].
    intros (Na & Nb & [K|[K _]]); [tauto|].
    assert ((SurfaceFace.curvature a =? SurfaceFace.curvature b)%float = true)
      by (apply eqb_key; tauto).
    congruence.
Qed.

Lemma FaceComp_lex_less (a b : SurfaceFace.t) : FaceComp a b = lex_less a b.
Proof.
  unfold FaceComp, lex_less.
  destruct (SurfaceFace.curvature a =? SurfaceFace.curvature b)%float eqn:E.
  - assert (L : (SurfaceFace.curvature a <? SurfaceFace.curvature b)%float = false).
    { destruct (_ <? _)%float eqn:L; [|reflexivity].
      apply eqb_key in E. apply ltb_key in L.
      destruct E as (_ & _ & K), L as (_ & _ & L). rewrite K in L.
      now apply klt_irrefl in L. }
    rewrite L. cbn.
    destruct (Z.eqb_spec (SurfaceFace.triangle a) (SurfaceFace.triangle b)) as [T|T]; cbn.
    + rewrite T, Z.ltb_irrefl. reflexivity.
    + now rewrite orb_false_r.
  - cbn. now rewrite orb_false_r.
Qed.

Lemma FaceComp_irrefl (a : SurfaceFace.t) : FaceComp a a = false.
Proof.
  destruct (FaceComp a a) eqn:E; [|reflexivity].
  apply FaceComp_FaceLt in E. destruct E as (_ & _ & [K|[_ T]]).
  - now apply klt_irrefl in K.
  - lia.
Qed.

Lemma FaceComp_trans (a b c : SurfaceFace.t) :
  FaceComp a b = true -> FaceComp b c = true -> FaceComp a c = true.
Proof.
  rewrite !FaceComp_FaceLt. unfold FaceLt.
  intros (Na & Nb & H1) (_ & Nc & H2). split; [exact Na|]. split; [exact Nc|].
  destruct H1 as [K1|[K1 T1]], H2 as [K2|[K2 T2]].
  - left. eapply klt_trans; eassumption.
  - left. now rewrite <- K2.
  - left. now rewrite K1.
  - right. split; [congruence | lia].
Qed.

Lemma FaceComp_asym (a b : SurfaceFace.t) :
  FaceComp a b = true -> FaceComp b a = false.
Proof.
  intros H. destruct (FaceComp b a) eqn:E; [|reflexivity].
  pose proof (FaceComp_trans _ _ _ H E) as T.
  rewrite FaceComp_irrefl in T. discriminate.
Qed.

Lemma differ_spec (a b : SurfaceFace.t) :
  ~ is_nanP (SurfaceFace.curvature a) -> ~ is_nanP (SurfaceFace.curvature b) ->
  differ a b = true ->
  fkey (SurfaceFace.curvature a) <> fkey (SurfaceFace.curvature b) \/
  SurfaceFace.triangle a <> SurfaceFace.triangle b \/
  SurfaceFace.tetrahedron a <> SurfaceFace.tetrahedron b.
Proof.
  intros Na Nb. unfold differ. rewrite !orb_true_iff, !negb_true_iff, !Z.eqb_neq.
  intros [[E|T]|T]; [left | tauto | tauto].
  intros K. assert ((SurfaceFace.curvature a =? SurfaceFace.curvature b)%float = true)
    by (apply eqb_key; tauto).
  congruence.
Qed.

Lemma FaceComp_total (a b : SurfaceFace.t) :
  is_nan (SurfaceFace.curvature a) = false ->
  is_nan (SurfaceFace.curvature b) = false ->
  differ a b = true ->
  FaceComp a b = true \/ FaceComp b a = true.
Proof.
  intros Na Nb D.
  assert (Na' : ~ is_nanP (SurfaceFace.curvature a))
    by (rewrite <- is_nan_spec; congruence).
  assert (Nb' : ~ is_nanP (SurfaceFace.curvature b))
    by (rewrite <- is_nan_spec; congruence).
  pose proof (differ_spec a b Na' Nb' D) as D'.
  rewrite !FaceComp_FaceLt. unfold FaceLt.
  destruct (klt_total (fkey (SurfaceFace.curvature a))
                      (fkey (SurfaceFace.curvature b))) as [K|[K|K]].
  - left. tauto.
  - destruct D' as [D'|D']; [contradiction|].
    destruct (Z.lt_total (SurfaceFace.triangle a) (SurfaceFace.triangle b))
      as [T|[T|T]].
    + left. tauto.
    + destruct (Z.lt_total (SurfaceFace.tetrahedron a) (SurfaceFace.tetrahedron b))
        as [U|[U|U]].
      * left. tauto.
      * exfalso. tauto.
      * right. split; [exact Nb'|]. split; [exact Na'|]. right.
        split; [congruence|]. right. split; [congruence | exact U].
    + right. split; [exact Nb'|]. split; [exact Na'|]. right.
      split; [congruence|]. left. exact T.
  - right. tauto.
Qed.

Lemma ordered_head_not_in (x : SurfaceFace.t) (s : list SurfaceFace.t) :
  ordered (x :: s) -> ~ In x s.
Proof.
  intros H Hin. apply StronglySorted_inv in H. destruct H as [_ H].
  rewrite Forall_forall in H. specialize (H x Hin).
  rewrite FaceComp_irrefl in H. discriminate.
Qed.

(** A strictly increasing sequence is determined by its elements. *)
Lemma ordered_unique (s1 : list SurfaceFace.t) :
  forall s2, ordered s1 -> ordered s2 ->
  (forall x, In x s1 <-> In x s2) -> s1 = s2.
Proof.
  induction s1 as [|x s1 IH]; intros [|y s2] O1 O2 E.
  - reflexivity.
  - exfalso. apply (proj2 (E y)). now left.
  - exfalso. apply (proj1 (E x)). now left.
  - assert (x = y) as <-.
    { destruct (proj1 (E x) (or_introl eq_refl)) as [->|Hx]; [reflexivity|].
      destruct (proj2 (E y) (or_introl eq_refl)) as [->|Hy]; [reflexivity|].
      apply StronglySorted_inv in O1, O2.
      destruct O1 as [_ O1], O2 as [_ O2]. rewrite Forall_forall in O1, O2.
      pose proof (FaceComp_asym _ _ (O1 _ Hy)) as A.
      rewrite (O2 _ Hx) in A. discriminate. }
    f_equal. apply IH.
    + now apply StronglySorted_inv in O1.
    + now apply StronglySorted_inv in O2.
    + intros z. split; intros Hz.
      * destruct (proj1 (E z) (or_intror Hz)) as [<-|H]; [|exact H].
        now apply ordered_head_not_in in O1.
      * destruct (proj2 (E z) (or_intror Hz)) as [<-|H]; [|exact H].
        now apply ordered_head_not_in in O2.
Qed.

Lemma set_insert_subset x s z : In z (set_insert x s) -> z = x \/ In z s.
Proof.
  induction s as [|y s IH]; cbn.
  - intros [<-|[]]. now left.
  - destruct (FaceComp x y).
    + intros [<-|H]; [now left | now right].
    + destruct (FaceComp y x).
      * intros [<-|H]; [right; now left|].
        destruct (IH H) as [->|H']; [now left | right; now right].
      * intros H. now right.
Qed.

Lemma set_insert_keeps x s z : In z s -> In z (set_insert x s).
Proof.
  induction s as [|y s IH]; cbn; [intros []|].
  destruct (FaceComp x y); [intros H; now right|].
  destruct (FaceComp y x); [|auto].
  intros [<-|H]; [now left | right; auto].
Qed.

(** [insert] keeps the set in order. *)
Lemma set_insert_ordered x s : ordered s -> ordered (set_insert x s).
Proof.
  unfold ordered. induction s as [|y s IH]; cbn; intros O.
  - constructor; constructor.
  - destruct (FaceComp x y) eqn:Exy.
    + constructor; [exact O|]. constructor; [exact Exy|].
      apply StronglySorted_inv in O. destruct O as [_ O].
      rewrite Forall_forall in *. intros z Hz.
      eapply FaceComp_trans; [exact Exy | now apply O].
    + destruct (FaceComp y x) eqn:Eyx; [|exact O].
      apply StronglySorted_inv in O. destruct O as [O1 O2].
      constructor; [now apply IH|].
      rewrite Forall_forall in *. intros z Hz.
      destruct (set_insert_subset _ _ _ Hz) as [->|Hz']; [exact Eyx | now apply O2].
Qed.

Lemma set_of_list_ordered_from l :
  forall s, ordered s -> ordered (fold_left (fun s x => set_insert x s) l s).
Proof.
  induction l as [|x l IH]; cbn; intros s O; [exact O|].
  apply IH. now apply set_insert_ordered.
Qed.

(** When the new record is comparable with the elements of the set it is
    not identical to, it is in the set after [insert]. *)
Lemma set_insert_in x s :
  (forall y, In y s -> x = y \/ FaceComp x y = true \/ FaceComp y x = true) ->
  In x (set_insert x s).
Proof.
  induction s as [|y s IH]; cbn; intros H; [now left|].
  destruct (FaceComp x y) eqn:Exy; [now left|].
  destruct (FaceComp y x) eqn:Eyx.
  - right. apply IH. intros z Hz. apply H. now right.
  - destruct (H y (or_introl eq_refl)) as [->|[C|C]]; [now left | |]; congruence.
Qed.

Lemma comparable_total l x y :
  comparable l -> In x l -> In y l ->
  x = y \/ FaceComp x y = true \/ FaceComp y x = true.
Proof.
  intros [N D] Hx Hy. destruct (differ x y) eqn:E.
  - right. apply FaceComp_total; auto.
  - left. now apply D.
Qed.

Lemma set_of_list_elements_from l0 l :
  forall s, (forall z, In z s -> In z l0) -> (forall z, In z l -> In z l0) ->
  comparable l0 ->
  forall z, In z (fold_left (fun s x => set_insert x s) l s) <-> In z s \/ In z l.
Proof.
  induction l as [|x l IH]; cbn; intros s Hs Hl C z; [tauto|].
  rewrite IH; auto.
  - split.
    + intros [H|H]; [|tauto].
      destruct (set_insert_subset _ _ _ H) as [->|H']; tauto.
    + intros [H|[<-|H]]; [left; now apply set_insert_keeps | | tauto].
      left. apply set_insert_in. intros y Hy.
      apply (comparable_total l0); auto.
  - intros y Hy. destruct (set_insert_subset _ _ _ Hy) as [->|H']; auto.
Qed.

(** On comparable records the set does not depend on the order of the
    insertions. *)
Lemma set_of_list_perm l1 l2 :
  comparable l1 -> Permutation l1 l2 -> set_of_list l1 = set_of_list l2.
Proof.
  intros C P. unfold set_of_list.
  assert (C2 : comparable l2).
  { destruct C as [N D]. split.
    - intros x Hx. apply N. eapply Permutation_in; [symmetry; exact P | exact Hx].
    - intros x y Hx Hy. apply D;
        (eapply Permutation_in; [symmetry; exact P | assumption]). }
  apply ordered_unique.
  - apply set_of_list_ordered_from. constructor.
  - apply set_of_list_ordered_from. constructor.
  - intros z.
    rewrite (set_of_list_elements_from l1 l1 []); auto; [|intros ? []].
    rewrite (set_of_list_elements_from l2 l2 []); auto; [|intros ? []].
    split; intros [[]|H]; right.
    + eapply Permutation_in; eassumption.
    + eapply Permutation_in; [symmetry; exact P | exact H].
Qed.

(** C2, as the code has it.  [FaceComp] is the lexicographic order of
    (curvature, triangle, tetrahedron); it is irreflexive and transitive; on
    two records whose curvatures are not NaN and that differ in a field,
    exactly one is before the other.  The iteration order of a set is
    determined by its elements, and the set built from records without NaN
    curvature, no two of which are equal field by field without being
    identical, does not depend on the order of the insertions. *)
Theorem FaceComp_strict_order :
  (forall a b, FaceComp a b = lex_less a b) /\
  (forall a, FaceComp a a = false) /\
  (forall a b c,
     FaceComp a b = true -> FaceComp b c = true -> FaceComp a c = true) /\
  (forall a b,
     is_nan (SurfaceFace.curvature a) = false ->
     is_nan (SurfaceFace.curvature b) = false ->
     differ a b = true ->
     (FaceComp a b = true /\ FaceComp b a = false) \/
     (FaceComp b a = true /\ FaceComp a b = false)) /\
  (forall s1 s2,
     ordered s1 -> ordered s2 -> (forall x, In x s1 <-> In x s2) -> s1 = s2) /\
  (forall l1 l2,
     comparable l1 -> Permutation l1 l2 -> set_of_list l1 = set_of_list l2).
Proof.
  split; [exact FaceComp_lex_less|].
  split; [exact FaceComp_irrefl|].
  split; [exact FaceComp_trans|].
  split.
  - intros a b Na Nb D.
    destruct (FaceComp_total a b Na Nb D) as [H|H]; [left | right];
      (split; [exact H | now apply FaceComp_asym]).
  - split; [exact ordered_unique | exact set_of_list_perm].
Qed.

(** C2, as stated, fails: two records of NaN curvature that differ in their
    triangle are not ordered either way, and the set keeps only the one
    inserted first. *)
Lemma FaceComp_nan_unordered :
  let a := SurfaceFace.mk 1 1 nan in
  let b := SurfaceFace.mk 1 2 nan in
  differ a b = true /\ FaceComp a b = false /\ FaceComp b a = false /\
  set_of_list [a; b] = [a] /\ set_of_list [b; a] = [b].
Proof. cbv zeta. repeat split; vm_compute; reflexivity. Qed.

(** Two records of curvature 1 and 2 are ordered by curvature, and the set
    of both is the same in either order of insertion. *)
Lemma FaceComp_strict_order_witness :
  let a := SurfaceFace.mk 7 5 1 in
  let b := SurfaceFace.mk 3 4 2 in
  ((FaceComp a b = true /\ FaceComp b a = false) \/
   (FaceComp b a = true /\ FaceComp a b = false)) /\
  set_of_list [a; b] = set_of_list [b; a].
Proof.
  cbv zeta.
  destruct FaceComp_strict_order as (_ & _ & _ & T & _ & P).
  split.
  - apply T; vm_compute; reflexivity.
  - apply P.
    + split.
      * intros x [<-|[<-|[]]]; vm_compute; reflexivity.
      * intros x y [<-|[<-|[]]] [<-|[<-|[]]]; try reflexivity;
          vm_compute; discriminate.
    + apply perm_swap.
Defined.

(** * The frontier grower *)

Section GrowthFacts.

Variable circumcurvature : Tetrahedron.t -> Z -> float.

(** C5.  When the candidate set is empty, or the curvature of every
    candidate exceeds [maxCurvature], [growFront] returns false, without a
    fault, and leaves the state as it is, flags included; so does any number
    of further calls, and [growSurface] stops at once. *)
Theorem growFront_converged (maxCurvature : float) (h : ConcaveHull) :
  surface h = [] \/
  (forall f, In f (surface h) ->
     (maxCurvature <? SurfaceFace.curvature f)%float = true) ->
  growFront circumcurvature maxCurvature h = Ok (false, h) /\
  (forall n,
     Nat.iter n (growFront_again circumcurvature maxCurvature) (Ok (false, h))
     = Ok (false, h)) /\
  (forall fuel,
     growSurface circumcurvature (S fuel) maxCurvature h = Some (Ok (O, h))).
Proof.
  intros H.
  assert (G : growFront circumcurvature maxCurvature h = Ok (false, h)).
  { unfold growFront. destruct (surface h) as [|face rest]; [reflexivity|].
    destruct H as [H|H]; [discriminate|].
    now rewrite (H face (or_introl eq_refl)). }
  split; [exact G|]. split.
  - induction n as [|n IH]; [reflexivity|].
    rewrite Nat.iter_succ, IH. exact G.
  - intros fuel. cbn [growSurface]. now rewrite G.
Qed.

End GrowthFacts.

(** In [enclosed] every candidate has curvature 0: with [maxCurvature = -1]
    the front has converged. *)
Lemma growFront_converged_witness :
  growFront (fun _ _ => 0%float) (-1) enclosed = Ok (false, enclosed) /\
  growFront (fun _ _ => 0%float) 1 (corner_mesh 1) = Ok (false, corner_mesh 1).
Proof.
  split.
  - apply (growFront_converged (fun _ _ => 0%float) (-1) enclosed).
    right. intros f [<-|[<-|[<-|[<-|[]]]]]; vm_compute; reflexivity.
  - apply (growFront_converged (fun _ _ => 0%float) 1 (corner_mesh 1)).
    left. reflexivity.
Defined.

(** * More on insideTetrahedron: bounds *)

Lemma lookupZ_in_range {A} (l : list A) (i : Z) :
  0 <= i < Z.of_nat (length l) -> exists x, lookupZ l i = Some x.
Proof.
  intros H. unfold lookupZ. destruct (Z.ltb_spec i 0); [lia|].
  destruct (nth_error l (Z.to_nat i)) eqn:E; [eauto|].
  apply nth_error_None in E. lia.
Qed.

Lemma lookupZ_None_range {A} (l : list A) (i : Z) :
  lookupZ l i = None -> ~ 0 <= i < Z.of_nat (length l).
Proof.
  intros E H. destruct (lookupZ_in_range l i H) as [x Hx]. congruence.
Qed.

Lemma lookupZ_Some_range {A} (l : list A) (i : Z) (x : A) :
  lookupZ l i = Some x -> 0 <= i < Z.of_nat (length l).
Proof.
  unfold lookupZ. destruct (Z.ltb_spec i 0); [discriminate|].
  intros E. assert (nth_error l (Z.to_nat i) <> None) by congruence.
  apply nth_error_Some in H0. lia.
Qed.

Lemma stops_ret {A} h (a : A) : stops_at_fault h (ret a).
Proof. constructor. Qed.

Lemma stops_readVertex h o i : stops_at_fault h (readVertex h o i).
Proof.
  unfold stops_at_fault, readVertex; cbn [fst snd].
  destruct (lookupZ (vertices h) i) eqn:E.
  - constructor; [|constructor]. apply lookupZ_Some_range in E. exact E.
  - exists [], (Access Vertices o i). split; [reflexivity|].
    split; [constructor|]. now apply lookupZ_None_range in E.
Qed.

Lemma stops_readTriangle h o i : stops_at_fault h (readTriangle h o i).
Proof.
  unfold stops_at_fault, readTriangle; cbn [fst snd].
  destruct (lookupZ (triangles h) i) eqn:E.
  - constructor; [|constructor]. apply lookupZ_Some_range in E. exact E.
  - exists [], (Access Triangles o i). split; [reflexivity|].
    split; [constructor|]. now apply lookupZ_None_range in E.
Qed.

Lemma stops_bind {A B} h (m : M A) (f : A -> M B) :
  stops_at_fault h m ->
  (forall a, snd m = Some a -> stops_at_fault h (f a)) ->
  stops_at_fault h (bind m f).
Proof.
  destruct m as [l [a|]]; cbn [snd]; intros Hm Hf.
  - specialize (Hf a eq_refl). unfold stops_at_fault in *. cbn [fst snd] in Hm.
    cbn [bind]. destruct (f a) as [l' [b|]]; cbn [fst snd] in *.
    + apply Forall_app. now split.
    + destruct Hf as (l0 & a0 & -> & F0 & N0).
      exists (l ++ l0), a0. split; [now rewrite app_assoc|].
      split; [apply Forall_app; now split | exact N0].
  - exact Hm.
Qed.

Lemma stops_mid_loop h tetra js :
  forall mid, stops_at_fault h (mid_loop h tetra js mid).
Proof.
  induction js as [|j js IH]; intros mid; cbn [mid_loop].
  - apply stops_ret.
  - apply stops_bind; [apply stops_readVertex | intros; apply IH].
Qed.

Lemma stops_read_vs h tetra i j : stops_at_fault h (read_vs h tetra i j).
Proof.
  unfold read_vs. apply stops_bind;
    [apply stops_readTriangle | intros; apply stops_readVertex].
Qed.

Lemma stops_face_loop h pos mid tetra faces :
  stops_at_fault h (face_loop h pos mid tetra faces).
Proof.
  induction faces as [|i faces IH]; cbn [face_loop].
  - apply stops_ret.
  - apply stops_bind; [apply stops_read_vs | intros vs0 _].
    apply stops_bind; [apply stops_read_vs | intros vs1 _].
    apply stops_bind; [apply stops_read_vs | intros vs2 _].
    destruct (_ <? _)%float; [apply stops_ret | exact IH].
Qed.

Lemma stops_insideTetrahedron h pos tetra :
  stops_at_fault h (insideTetrahedron_run h pos tetra).
Proof.
  unfold insideTetrahedron_run. destruct (outer tetra); [apply stops_ret|].
  apply stops_bind; [apply stops_mid_loop | intros; apply stops_face_loop].
Qed.

Lemma well_indexed_centroid h tetra :
  well_indexed h tetra -> exists mid, centroid h tetra = Some mid.
Proof.
  intros (V & _ & _). unfold centroid.
  destruct (lookupZ_in_range _ _ (V 0%nat ltac:(lia))) as [p0 ->].
  destruct (lookupZ_in_range _ _ (V 1%nat ltac:(lia))) as [p1 ->].
  destruct (lookupZ_in_range _ _ (V 2%nat ltac:(lia))) as [p2 ->].
  destruct (lookupZ_in_range _ _ (V 3%nat ltac:(lia))) as [p3 ->].
  eauto.
Qed.

Lemma well_indexed_corners h tetra i :
  well_indexed h tetra -> (i < 4)%nat -> exists f, corners h tetra i = Some f.
Proof.
  intros (_ & T & W) Hi. unfold corners.
  destruct (lookupZ_in_range _ _ (T i Hi)) as [tri E]. rewrite E.
  destruct (lookupZ_in_range _ _ (W i tri 0%nat Hi ltac:(lia) E)) as [c0 ->].
  destruct (lookupZ_in_range _ _ (W i tri 1%nat Hi ltac:(lia) E)) as [c1 ->].
  destruct (lookupZ_in_range _ _ (W i tri 2%nat Hi ltac:(lia) E)) as [c2 ->].
  eauto.
Qed.

Lemma well_indexed_bounding h tetra :
  well_indexed h tetra -> exists fs, bounding_triangles h tetra = Some fs.
Proof.
  intros W. unfold bounding_triangles. cbn [faces_of].
  destruct (well_indexed_corners h tetra 0 W ltac:(lia)) as [f0 ->].
  destruct (well_indexed_corners h tetra 1 W ltac:(lia)) as [f1 ->].
  destruct (well_indexed_corners h tetra 2 W ltac:(lia)) as [f2 ->].
  destruct (well_indexed_corners h tetra 3 W ltac:(lia)) as [f3 ->].
  eauto.
Qed.

Lemma well_indexed_not_sentinel h tetra : well_indexed h tetra -> ~ sentinel tetra.
Proof.
  intros (V & _ & _) (j & Hj & E). specialize (V j Hj). lia.
Qed.

Lemma mid_loop_count h tetra mid :
  centroid h tetra = Some mid ->
  length (fst (mid_loop h tetra [0; 1; 2; 3]%nat vzero)) = 4%nat.
Proof.
  unfold centroid. cbn [mid_loop]. unfold readVertex, bind, ret.
  destruct (lookupZ (vertices h) (get4 (Tetrahedron.vertices tetra) 0));
    [|discriminate].
  destruct (lookupZ (vertices h) (get4 (Tetrahedron.vertices tetra) 1));
    [|discriminate].
  destruct (lookupZ (vertices h) (get4 (Tetrahedron.vertices tetra) 2));
    [|discriminate].
  destruct (lookupZ (vertices h) (get4 (Tetrahedron.vertices tetra) 3));
    [|discriminate].
  reflexivity.
Qed.

Lemma read_vs_count h tetra i j c :
  snd (read_vs h tetra i j) = Some c ->
  length (fst (read_vs h tetra i j)) = 2%nat.
Proof.
  unfold read_vs, readTriangle, readVertex, bind.
  destruct (lookupZ (triangles h) _); [|discriminate]. reflexivity.
Qed.

Lemma face_loop_count h pos mid tetra faces :
  forall fs, faces_of h tetra faces = Some fs ->
  length (fst (face_loop h pos mid tetra faces))
  = (6 * examined pos mid fs)%nat.
Proof.
  induction faces as [|i faces IH]; intros fs Hfs; cbn in Hfs.
  - injection Hfs as <-. reflexivity.
  - destruct (corners h tetra i) as [[[c0 c1] c2]|] eqn:Hc; [|discriminate].
    destruct (faces_of h tetra faces) as [fs'|]; [|discriminate].
    injection Hfs as <-.
    destruct (corners_inv _ _ _ _ _ _ Hc) as (H0 & H1 & H2).
    cbn [face_loop examined].
    rewrite fst_bind, H0, fst_bind, H1, fst_bind, H2, !length_app.
    rewrite (read_vs_count _ _ _ _ _ H0), (read_vs_count _ _ _ _ _ H1),
      (read_vs_count _ _ _ _ _ H2).
    unfold rejected at 1. cbn [signed_distance].
    destruct (side_of pos c0 c1 c2 * side_of mid c0 c1 c2 <? 0)%float.
    + reflexivity.
    + rewrite (IH fs' eq_refl). lia.
Qed.

Lemma faces_of_length h tetra faces :
  forall fs, faces_of h tetra faces = Some fs -> length fs = length faces.
Proof.
  induction faces as [|i faces IH]; intros fs Hfs; cbn in Hfs.
  - injection Hfs as <-. reflexivity.
  - destruct (corners h tetra i); [|discriminate].
    destruct (faces_of h tetra faces) as [fs'|]; [|discriminate].
    injection Hfs as <-. cbn. now rewrite (IH fs' eq_refl).
Qed.

Lemma examined_le pos mid fs : (examined pos mid fs <= length fs)%nat.
Proof.
  induction fs as [|f fs IH]; cbn [examined length]; [lia|].
  destruct (rejected pos mid f); lia.
Qed.

Lemma examined_all pos mid fs :
  forallb (fun f => negb (rejected pos mid f)) fs = true ->
  examined pos mid fs = length fs.
Proof.
  induction fs as [|f fs IH]; cbn [examined length forallb]; [reflexivity|].
  destruct (rejected pos mid f); cbn [negb andb]; [discriminate|].
  intros H. now rewrite IH.
Qed.

(** X1.  On a tetrahedron that is not a sentinel, with indices in range,
    [insideTetrahedron] reads the four vertices of the tetrahedron and then,
    for each face that it examines, three times the triangle and one of its
    vertices, and it returns at the first face that rejects the point: it
    makes [4 + 6 k] accesses, where [k] is the number of faces up to the
    first that rejects; at most 28, and 28 when the answer is true. *)
Theorem insideTetrahedron_access_count (h : ConcaveHull) (pos : Vector3d)
    (tetra : Tetrahedron.t) (mid : Vector3d)
    (fs : list (Vector3d * Vector3d * Vector3d)) :
  ~ sentinel tetra ->
  centroid h tetra = Some mid ->
  bounding_triangles h tetra = Some fs ->
  length (insideTetrahedron_accesses h pos tetra)
  = (4 + 6 * examined pos mid fs)%nat /\
  (length (insideTetrahedron_accesses h pos tetra) <= 28)%nat /\
  (insideTetrahedron h pos tetra = Some true ->
   length (insideTetrahedron_accesses h pos tetra) = 28%nat).
Proof.
  intros Hs Hm Hf.
  assert (L : length (insideTetrahedron_accesses h pos tetra)
              = (4 + 6 * examined pos mid fs)%nat).
  { unfold insideTetrahedron_accesses, insideTetrahedron_run.
    apply outer_false in Hs. rewrite Hs.
    rewrite fst_bind, length_app, mid_loop_centroid, Hm.
    rewrite (mid_loop_count h tetra mid Hm).
    now rewrite (face_loop_count h pos mid tetra _ fs Hf). }
  pose proof (faces_of_length h tetra _ fs Hf) as N. cbn [length] in N.
  pose proof (examined_le pos mid fs) as B.
  split; [exact L|]. split; [lia|].
  intros T. rewrite (insideTetrahedron_closed h pos tetra mid fs Hs Hm Hf) in T.
  injection T as T. rewrite L, (examined_all pos mid fs T). lia.
Qed.

(** In the tetrahedron of [corner_mesh 1] the point [(2, 2, 2)] passes the
    three faces through the origin and is rejected by the fourth, after 28
    accesses; the point [(1/4, 1/4, -1)] is rejected by the first face,
    after 10. *)
Lemma insideTetrahedron_access_count_witness :
  length (insideTetrahedron_accesses (corner_mesh 1) (mkVector3d 2 2 2)
            corner_tetra) = 28%nat /\
  length (insideTetrahedron_accesses (corner_mesh 1) (mkVector3d 0.25 0.25 (-1))
            corner_tetra) = 10%nat.
Proof.
  split.
  - refine (eq_trans
              (proj1 (insideTetrahedron_access_count (corner_mesh 1)
                        (mkVector3d 2 2 2) corner_tetra
                        (mkVector3d 0.25 0.25 0.25)
                        [(mkVector3d 0 0 0, mkVector3d 1 0 0, mkVector3d 0 1 0);
                         (mkVector3d 0 0 0, mkVector3d 1 0 0, mkVector3d 0 0 1);
                         (mkVector3d 0 0 0, mkVector3d 0 1 0, mkVector3d 0 0 1);
                         (mkVector3d 1 0 0, mkVector3d 0 1 0, mkVector3d 0 0 1)]
                        _ _ _)) _).
    + apply outer_false. reflexivity.
    + vm_compute. reflexivity.
    + vm_compute. reflexivity.
    + vm_compute. reflexivity.
  - refine (eq_trans
              (proj1 (insideTetrahedron_access_count (corner_mesh 1)
                        (mkVector3d 0.25 0.25 (-1)) corner_tetra
                        (mkVector3d 0.25 0.25 0.25)
                        [(mkVector3d 0 0 0, mkVector3d 1 0 0, mkVector3d 0 1 0);
                         (mkVector3d 0 0 0, mkVector3d 1 0 0, mkVector3d 0 0 1);
                         (mkVector3d 0 0 0, mkVector3d 0 1 0, mkVector3d 0 0 1);
                         (mkVector3d 1 0 0, mkVector3d 0 1 0, mkVector3d 0 0 1)]
                        _ _ _)) _).
    + apply outer_false. reflexivity.
    + vm_compute. reflexivity.
    + vm_compute. reflexivity.
    + vm_compute. reflexivity.
Defined.

(** X2.  When the four vertex indices and the four triangle indices of the
    tetrahedron are in range, and so are the vertex indices of these
    triangles, [insideTetrahedron] returns a value and all its accesses are
    within bounds. *)
Theorem insideTetrahedron_in_bounds (h : ConcaveHull) (pos : Vector3d)
    (tetra : Tetrahedron.t) :
  well_indexed h tetra ->
  (exists b, insideTetrahedron h pos tetra = Some b) /\
  Forall (in_bounds h) (insideTetrahedron_accesses h pos tetra).
Proof.
  intros W.
  destruct (well_indexed_centroid h tetra W) as [mid Hm].
  destruct (well_indexed_bounding h tetra W) as [fs Hf].
  pose proof (insideTetrahedron_closed h pos tetra mid fs
                (well_indexed_not_sentinel h tetra W) Hm Hf) as E.
  split; [eauto|].
  pose proof (stops_insideTetrahedron h pos tetra) as S.
  unfold stops_at_fault in S.
  unfold insideTetrahedron in E. rewrite E in S. exact S.
Qed.

Lemma corner_mesh_well_indexed : well_indexed (corner_mesh 1) corner_tetra.
Proof.
  split; [|split].
  - intros j Hj. destruct j as [|[|[|[|j]]]]; cbn; lia.
  - intros i Hi. destruct i as [|[|[|[|i]]]]; cbn; lia.
  - intros i tri j Hi Hj E.
    destruct i as [|[|[|[|i]]]]; try lia; cbn in E; injection E as <-;
      destruct j as [|[|[|j]]]; cbn; lia.
Qed.

(** On [corner_mesh 1] the indices are in range. *)
Lemma insideTetrahedron_in_bounds_witness :
  (exists b, insideTetrahedron (corner_mesh 1) (mkVector3d 2 2 2) corner_tetra
             = Some b) /\
  Forall (in_bounds (corner_mesh 1))
         (insideTetrahedron_accesses (corner_mesh 1) (mkVector3d 2 2 2) corner_tetra).
Proof.
  apply (insideTetrahedron_in_bounds (corner_mesh 1) (mkVector3d 2 2 2) corner_tetra).
  exact corner_mesh_well_indexed.
Defined.

(** * More on insideTetrahedron: what it depends on *)

Lemma lookupZ_map {A B} (g : A -> B) (l : list A) (i : Z) :
  lookupZ (map g l) i = option_map g (lookupZ l i).
Proof.
  unfold lookupZ. destruct (i <? 0); [reflexivity|]. apply nth_error_map.
Qed.

Lemma bind_ext {A B} (m : M A) (f g : A -> M B) :
  (forall a, f a = g a) -> bind m f = bind m g.
Proof. intros H. destruct m as [l [a|]]; cbn; [now rewrite H | reflexivity]. Qed.

Lemma mid_loop_frame h h' tetra tetra' js :
  vertices h = vertices h' ->
  Tetrahedron.vertices tetra = Tetrahedron.vertices tetra' ->
  forall mid, mid_loop h tetra js mid = mid_loop h' tetra' js mid.
Proof.
  intros V T. induction js as [|j js IH]; intros mid; cbn [mid_loop];
    [reflexivity|].
  unfold readVertex. rewrite V, T. apply bind_ext. intros v. apply IH.
Qed.

Lemma read_vs_frame h h' tetra tetra' i j :
  same_geometry h h' ->
  Tetrahedron.triangles tetra = Tetrahedron.triangles tetra' ->
  read_vs h tetra i j = read_vs h' tetra' i j.
Proof.
  intros [V G] T. unfold read_vs, readTriangle, readVertex. rewrite T, V.
  pose proof (f_equal (fun l => lookupZ l (get4 (Tetrahedron.triangles tetra') i)) G)
    as E.
  cbn beta in E. rewrite !lookupZ_map in E.
  destruct (lookupZ (triangles h) _) as [tri|],
           (lookupZ (triangles h') _) as [tri'|]; cbn in E; try discriminate.
  - injection E as E. cbn. now rewrite E.
  - reflexivity.
Qed.

Lemma face_loop_frame h h' pos mid tetra tetra' faces :
  same_geometry h h' ->
  Tetrahedron.triangles tetra = Tetrahedron.triangles tetra' ->
  face_loop h pos mid tetra faces = face_loop h' pos mid tetra' faces.
Proof.
  intros G T. induction faces as [|i faces IH]; cbn [face_loop]; [reflexivity|].
  rewrite !(read_vs_frame h h' tetra tetra' i _ G T).
  apply bind_ext; intros vs0. apply bind_ext; intros vs1.
  apply bind_ext; intros vs2. now rewrite IH.
Qed.

(** X3.  [insideTetrahedron] depends on the geometry only: on two meshes
    with the same vertices and triangles on the same vertex indices, and two
    tetrahedra with the same vertex and triangle indices, it makes the same
    accesses and gives the same answer, whatever the flags, the neighbours,
    the edges and the candidate set are. *)
Theorem insideTetrahedron_geometry_only (h h' : ConcaveHull) (pos : Vector3d)
    (tetra tetra' : Tetrahedron.t) :
  same_geometry h h' ->
  Tetrahedron.vertices tetra = Tetrahedron.vertices tetra' ->
  Tetrahedron.triangles tetra = Tetrahedron.triangles tetra' ->
  insideTetrahedron h pos tetra = insideTetrahedron h' pos tetra' /\
  insideTetrahedron_accesses h pos tetra = insideTetrahedron_accesses h' pos tetra'.
Proof.
  intros G V T.
  enough (E : insideTetrahedron_run h pos tetra = insideTetrahedron_run h' pos tetra')
    by (unfold insideTetrahedron, insideTetrahedron_accesses; now rewrite E).
  unfold insideTetrahedron_run, outer. rewrite V.
  destruct (_ || _); [reflexivity|].
  rewrite (mid_loop_frame h h' tetra tetra' _ (proj1 G) V).
  apply bind_ext. intros mid. now apply face_loop_frame.
Qed.

(** The tetrahedron of [corner_mesh 1] once consumed, in the mesh with its
    first face on the surface and a candidate in the set, contains the same
    points. *)
Lemma insideTetrahedron_geometry_only_witness :
  let h' := consume (corner_mesh 1) (SurfaceFace.mk 0 0 0) [SurfaceFace.mk 0 1 0] in
  insideTetrahedron (corner_mesh 1) (mkVector3d 0.25 0.25 0.25) corner_tetra
  = insideTetrahedron h' (mkVector3d 0.25 0.25 0.25) (set_seen corner_tetra).
Proof.
  cbv zeta.
  apply (insideTetrahedron_geometry_only (corner_mesh 1)
           (consume (corner_mesh 1) (SurfaceFace.mk 0 0 0) [SurfaceFace.mk 0 1 0])
           (mkVector3d 0.25 0.25 0.25) corner_tetra (set_seen corner_tetra)).
  - split; reflexivity.
  - reflexivity.
  - reflexivity.
Defined.

(** * More on insideTetrahedron: degenerate inputs *)

Lemma klt_asym k l : klt k l -> ~ klt l k.
Proof. intros H H'. exact (klt_irrefl k (klt_trans _ _ _ H H')). Qed.

Lemma ltb_asym (x y : float) : (x <? y)%float = true -> (y <? x)%float = false.
Proof.
  intros H. destruct (y <? x)%float eqn:E; [|reflexivity].
  apply ltb_key in H, E. destruct H as (_ & _ & H), E as (_ & _ & E).
  now apply klt_asym in H.
Qed.

(** A square is never negative. *)
Lemma mul_self_not_neg (x : float) : (x * x <? 0)%float = false.
Proof.
  destruct (x * x <? 0)%float eqn:E; [|reflexivity].
  destruct (mul_neg _ _ E) as [[A B]|[A B]];
    apply ltb_asym in A; congruence.
Qed.

(** X4.  The centroid of a tetrahedron, as [insideTetrahedron] computes it,
    is inside the tetrahedron, whatever the geometry: on each face the test
    multiplies its signed distance by itself. *)
Theorem insideTetrahedron_centroid_inside (h : ConcaveHull)
    (tetra : Tetrahedron.t) (mid : Vector3d)
    (fs : list (Vector3d * Vector3d * Vector3d)) :
  ~ sentinel tetra ->
  centroid h tetra = Some mid ->
  bounding_triangles h tetra = Some fs ->
  insideTetrahedron h mid tetra = Some true.
Proof.
  intros Hs Hm Hf.
  rewrite (insideTetrahedron_closed h mid tetra mid fs Hs Hm Hf).
  f_equal. apply forallb_forall. intros f _. apply negb_true_iff.
  unfold rejected. apply mul_self_not_neg.
Qed.

(** Even the centroid of the flat tetrahedron of [flat_mesh] is inside it. *)
Lemma insideTetrahedron_centroid_inside_witness :
  insideTetrahedron flat_mesh (mkVector3d 0.5 0.5 0) corner_tetra = Some true.
Proof.
  apply (insideTetrahedron_centroid_inside flat_mesh corner_tetra
           (mkVector3d 0.5 0.5 0)
           [(mkVector3d 0 0 0, mkVector3d 1 0 0, mkVector3d 0 1 0);
            (mkVector3d 0 0 0, mkVector3d 1 0 0, mkVector3d 1 1 0);
            (mkVector3d 0 0 0, mkVector3d 0 1 0, mkVector3d 1 1 0);
            (mkVector3d 1 0 0, mkVector3d 0 1 0, mkVector3d 1 1 0)]).
  - apply outer_false. reflexivity.
  - vm_compute. reflexivity.
  - vm_compute. reflexivity.
Defined.

(** X5.  A flat tetrahedron contains every point: when the centroid lies on
    the plane of each of the four faces (signed distance zero), no face
    rejects any point. *)
Theorem insideTetrahedron_flat_contains_all (h : ConcaveHull)
    (tetra : Tetrahedron.t) (mid : Vector3d)
    (fs : list (Vector3d * Vector3d * Vector3d)) :
  ~ sentinel tetra ->
  centroid h tetra = Some mid ->
  bounding_triangles h tetra = Some fs ->
  (forall f, In f fs -> (signed_distance mid f =? 0)%float = true) ->
  forall pos, insideTetrahedron h pos tetra = Some true.
Proof.
  intros Hs Hm Hf Z pos.
  rewrite (insideTetrahedron_closed h pos tetra mid fs Hs Hm Hf).
  f_equal. apply forallb_forall. intros f Hin. apply negb_true_iff.
  unfold rejected. apply mul_zero_r. now apply Z.
Qed.

(** The point [(5, 5, 5)] is inside the flat tetrahedron of [flat_mesh]. *)
Lemma insideTetrahedron_flat_contains_all_witness :
  insideTetrahedron flat_mesh (mkVector3d 5 5 5) corner_tetra = Some true.
Proof.
  apply (insideTetrahedron_flat_contains_all flat_mesh corner_tetra
           (mkVector3d 0.5 0.5 0)
           [(mkVector3d 0 0 0, mkVector3d 1 0 0, mkVector3d 0 1 0);
            (mkVector3d 0 0 0, mkVector3d 1 0 0, mkVector3d 1 1 0);
            (mkVector3d 0 0 0, mkVector3d 0 1 0, mkVector3d 1 1 0);
            (mkVector3d 1 0 0, mkVector3d 0 1 0, mkVector3d 1 1 0)]).
  - apply outer_false. reflexivity.
  - vm_compute. reflexivity.
  - vm_compute. reflexivity.
  - intros f [<-|[<-|[<-|[<-|[]]]]]; vm_compute; reflexivity.
Defined.

(** NaN goes through subtraction, multiplication and addition, and is not
    less than anything. *)
Lemma nan_sub_l (x y : float) : is_nanP x -> is_nanP (x - y).
Proof. unfold is_nanP. rewrite sub_spec. intros ->. reflexivity. Qed.

Lemma nan_mul_l (x y : float) : is_nanP x -> is_nanP (x * y).
Proof. unfold is_nanP. rewrite mul_spec. intros ->. reflexivity. Qed.

Lemma nan_add_l (x y : float) : is_nanP x -> is_nanP (x + y).
Proof. unfold is_nanP. rewrite add_spec. intros ->. reflexivity. Qed.

Lemma nan_add_r (x y : float) : is_nanP y -> is_nanP (x + y).
Proof.
  unfold is_nanP. rewrite add_spec. intros ->.
  destruct (Prim2SF x); reflexivity.
Qed.

Lemma nan_not_ltb (x y : float) : is_nanP x -> (x <? y)%float = false.
Proof. unfold is_nanP. rewrite ltb_spec. intros ->. reflexivity. Qed.

Lemma side_of_nan (pos c0 c1 c2 : Vector3d) :
  is_nan (vx pos) || is_nan (vy pos) || is_nan (vz pos) = true ->
  is_nanP (side_of pos c0 c1 c2).
Proof.
  rewrite !orb_true_iff, !is_nan_spec. unfold side_of, dot, vsub; cbn [vx vy vz].
  intros [[N|N]|N].
  - apply nan_add_l, nan_add_l, nan_mul_l, nan_sub_l, N.
  - apply nan_add_l, nan_add_r, nan_mul_l, nan_sub_l, N.
  - apply nan_add_r, nan_mul_l, nan_sub_l, N.
Qed.

(** X6.  A point with a NaN coordinate is inside every tetrahedron that is
    not a sentinel (indices in range): its signed distances are NaN, and so
    are their products with the centroid's, none of which is [< 0]. *)
Theorem insideTetrahedron_nan_point (h : ConcaveHull) (pos : Vector3d)
    (tetra : Tetrahedron.t) (mid : Vector3d)
    (fs : list (Vector3d * Vector3d * Vector3d)) :
  ~ sentinel tetra ->
  centroid h tetra = Some mid ->
  bounding_triangles h tetra = Some fs ->
  is_nan (vx pos) || is_nan (vy pos) || is_nan (vz pos) = true ->
  insideTetrahedron h pos tetra = Some true.
Proof.
  intros Hs Hm Hf N.
  rewrite (insideTetrahedron_closed h pos tetra mid fs Hs Hm Hf).
  f_equal. apply forallb_forall. intros [[c0 c1] c2] _. apply negb_true_iff.
  unfold rejected, signed_distance.
  apply nan_not_ltb, nan_mul_l, side_of_nan, N.
Qed.

(** The point [(NaN, 7, 7)] is inside the tetrahedron of [corner_mesh 1]. *)
Lemma insideTetrahedron_nan_point_witness :
  insideTetrahedron (corner_mesh 1) (mkVector3d nan 7 7) corner_tetra = Some true.
Proof.
  apply (insideTetrahedron_nan_point (corner_mesh 1) (mkVector3d nan 7 7)
           corner_tetra (mkVector3d 0.25 0.25 0.25)
           [(mkVector3d 0 0 0, mkVector3d 1 0 0, mkVector3d 0 1 0);
            (mkVector3d 0 0 0, mkVector3d 1 0 0, mkVector3d 0 0 1);
            (mkVector3d 0 0 0, mkVector3d 0 1 0, mkVector3d 0 0 1);
            (mkVector3d 1 0 0, mkVector3d 0 1 0, mkVector3d 0 0 1)]).
  - apply outer_false. reflexivity.
  - vm_compute. reflexivity.
  - vm_compute. reflexivity.
  - vm_compute. reflexivity.
Defined.

(** * File names *)

Lemma to_int_small (n : Z) : 0 <= n <= INT_MAX -> to_int n = n.
Proof.
  unfold to_int, INT_MAX. intros H.
  rewrite Z.mod_small; lia.
Qed.

Lemma to_size_t_small (n : Z) : 0 <= n < 2 ^ 64 -> to_size_t n = n.
Proof. intros H. unfold to_size_t. now apply Z.mod_small. Qed.

Lemma int_sub_small (n k : Z) :
  0 <= n <= INT_MAX -> 0 <= k <= INT_MAX -> int_sub n k = Returns (n - k).
Proof.
  unfold int_sub, INT_MIN, INT_MAX. intros Hn Hk.
  destruct (_ <=? _) eqn:A; [destruct (n - k <=? _) eqn:B|]; cbn;
    try reflexivity; lia.
Qed.

Lemma size_nonneg (s : list ascii) : 0 <= size s.
Proof. unfold size. lia. Qed.

Lemma size_app (a b : list ascii) : size (a ++ b) = size a + size b.
Proof. unfold size. rewrite length_app. lia. Qed.

Lemma string_eqb_eq (a b : list ascii) : string_eqb a b = true <-> a = b.
Proof.
  revert b. induction a as [|x a IH]; intros [|y b]; cbn;
    try (split; [discriminate | discriminate]); [tauto|].
  rewrite andb_true_iff, Ascii.eqb_eq, IH. split.
  - intros [-> ->]. reflexivity.
  - intros E. injection E as -> ->. split; reflexivity.
Qed.

Lemma nameStub_firstn (name_ : list ascii) :
  size name_ <= INT_MAX ->
  nameStub name_ = Returns (firstn (length name_ - 4) name_).
Proof.
  intros H. pose proof (size_nonneg name_) as P. unfold nameStub.
  rewrite to_int_small by lia.
  rewrite int_sub_small by (unfold INT_MAX in *; lia).
  assert (B : 0 <= Z.max 0 (size name_ - 4) < 2 ^ 64)
    by (unfold INT_MAX in H; lia).
  rewrite (to_size_t_small _ B). unfold substr.
  destruct (size name_ <? 0) eqn:E; [lia|]. cbn [skipn Z.to_nat].
  do 2 f_equal. unfold size in *. lia.
Qed.

Lemma nameExt_skipn (name_ : list ascii) :
  size name_ <= INT_MAX ->
  nameExt name_ = Returns (skipn (length name_ - 3) name_).
Proof.
  intros H. pose proof (size_nonneg name_) as P. unfold nameExt.
  rewrite to_int_small by lia.
  rewrite int_sub_small by (unfold INT_MAX in *; lia).
  assert (B : 0 <= Z.max 0 (size name_ - 3) < 2 ^ 64)
    by (unfold INT_MAX in H; lia).
  rewrite (to_size_t_small _ B). unfold substr.
  destruct (size name_ <? _) eqn:E; [lia|].
  replace (Z.to_nat (Z.max 0 (size name_ - 3))) with (length name_ - 3)%nat
    by (unfold size; lia).
  f_equal. apply firstn_all2. rewrite length_skipn.
  unfold npos, size, INT_MAX in *. lia.
Qed.

(** X7.  On a name of fewer than [2^31] characters [nameStub] and [nameExt]
    return, without exception or overflow: the stub is the name without its
    last four characters, empty when the name has at most four, and the
    extension is the last three characters, the whole name when it has at
    most three. *)
Theorem nameStub_nameExt_clamped (name_ : list ascii) :
  size name_ <= INT_MAX ->
  nameStub name_ = Returns (firstn (length name_ - 4) name_) /\
  nameExt name_ = Returns (last_chars 3 name_).
Proof.
  intros H. split; [now apply nameStub_firstn | now apply nameExt_skipn].
Qed.

(** On the two-character name [ab] the stub is empty and the extension is
    [ab]. *)
Lemma nameStub_nameExt_clamped_witness :
  nameStub ["a"; "b"]%char = Returns [] /\
  nameExt ["a"; "b"]%char = Returns ["a"; "b"]%char.
Proof.
  apply (nameStub_nameExt_clamped ["a"; "b"]%char).
  vm_compute. discriminate.
Defined.

(** X8.  [nameStub] and [nameExt] take a name apart at its fourth character
    from the end: on a stub followed by one character and an extension of
    three they give back the stub and the extension, whatever the separating
    character is. *)
Theorem nameStub_nameExt_round_trip (stub ext : list ascii) (c : ascii) :
  size (stub ++ c :: ext) <= INT_MAX ->
  length ext = 3%nat ->
  nameStub (stub ++ c :: ext) = Returns stub /\
  nameExt (stub ++ c :: ext) = Returns ext.
Proof.
  intros H L. split.
  - rewrite (nameStub_firstn _ H). f_equal.
    rewrite length_app. cbn [length]. rewrite L.
    replace (length stub + 4 - 4)%nat with (length stub + 0)%nat by lia.
    rewrite firstn_app_2. cbn. apply app_nil_r.
  - rewrite (nameExt_skipn _ H). f_equal.
    rewrite length_app. cbn [length]. rewrite L.
    replace (length stub + 4 - 3)%nat with (length stub + 1)%nat by lia.
    rewrite skipn_app, skipn_all2 by lia.
    replace (length stub + 1 - length stub)%nat with 1%nat by lia.
    reflexivity.
Qed.

(** The name [t.ply] has stub [t] and extension [ply]. *)
Lemma nameStub_nameExt_round_trip_witness :
  nameStub ["t"; "."; "p"; "l"; "y"]%char = Returns ["t"]%char /\
  nameExt ["t"; "."; "p"; "l"; "y"]%char = Returns ["p"; "l"; "y"]%char.
Proof.
  apply (nameStub_nameExt_round_trip ["t"]%char ["p"; "l"; "y"]%char "."%char).
  - vm_compute. discriminate.
  - reflexivity.
Defined.

Lemma substr_0 (s : list ascii) (n : Z) :
  0 <= n <= size s -> substr s 0 n = Returns (firstn (Z.to_nat n) s).
Proof.
  intros H. unfold substr. destruct (size s <? 0) eqn:E; [lia|].
  cbn [skipn Z.to_nat]. do 2 f_equal. lia.
Qed.

Lemma substr_tail (s : list ascii) (n : Z) :
  0 <= n <= size s -> size s - n <= npos ->
  substr s n npos = Returns (skipn (Z.to_nat n) s).
Proof.
  intros H B. unfold substr. destruct (size s <? n) eqn:E; [lia|].
  f_equal. apply firstn_all2. rewrite length_skipn. unfold size in *. lia.
Qed.

Lemma fileStub_short (file : list ascii) : size file < 4 -> fileStub file = Throws.
Proof.
  intros H. pose proof (size_nonneg file) as P. unfold fileStub, substr.
  replace (to_size_t (size file - 4)) with (size file - 4 + 2 ^ 64).
  - destruct (size file <? _) eqn:E; [reflexivity | lia].
  - unfold to_size_t.
    rewrite <- (Z.mod_add (size file - 4) 1 (2 ^ 64)) by lia.
    rewrite Z.mod_small; lia.
Qed.

Lemma fileStub_long (file : list ascii) :
  4 <= size file -> fileStub file <> Throws.
Proof.
  intros H. unfold fileStub.
  assert (B : 0 <= to_size_t (size file - 4) <= size file).
  { unfold to_size_t.
    pose proof (Z.mod_pos_bound (size file - 4) (2 ^ 64) ltac:(lia)) as Q.
    destruct (Z.lt_ge_cases (size file - 4) (2 ^ 64)) as [S|S].
    - rewrite Z.mod_small by lia. lia.
    - lia. }
  unfold substr at 1. destruct (size file <? _) eqn:E; [lia|].
  destruct (string_eqb _ _); [|intros Q; discriminate Q].
  unfold substr. destruct (size file <? 0) eqn:E0; [lia|].
  intros Q; discriminate Q.
Qed.

Lemma fileStub_cases (file : list ascii) :
  4 <= size file < 2 ^ 64 ->
  fileStub file =
  Returns (if string_eqb (last_chars 4 file) dot_ply
           then firstn (length file - 4) file else file).
Proof.
  intros H. unfold fileStub.
  rewrite to_size_t_small by lia.
  rewrite substr_tail by (unfold npos; lia).
  replace (Z.to_nat (size file - 4)) with (length file - 4)%nat
    by (unfold size; lia).
  fold (last_chars 4 file). destruct (string_eqb _ _); [|reflexivity].
  rewrite substr_0 by lia.
  now replace (Z.to_nat (size file - 4)) with (length file - 4)%nat
    by (unfold size; lia).
Qed.

Lemma last_chars_app (a b : list ascii) (n : nat) :
  length b = n -> last_chars n (a ++ b) = b.
Proof.
  intros <-. unfold last_chars. rewrite length_app.
  replace (length a + length b - length b)%nat with (length a + 0)%nat by lia.
  rewrite skipn_app, skipn_all2 by lia.
  replace (length a + 0 - length a)%nat with 0%nat by lia. reflexivity.
Qed.

Lemma firstn_app_exact (a b : list ascii) (n : nat) :
  length b = n -> firstn (length (a ++ b) - n) (a ++ b) = a.
Proof.
  intros <-. rewrite length_app.
  replace (length a + length b - length b)%nat with (length a + 0)%nat by lia.
  rewrite firstn_app_2. cbn. apply app_nil_r.
Qed.

(** X9.  The file stub of raytransients is computed with an unsigned
    subtraction: on a cloud name of fewer than four characters
    [file.length()-4] wraps around and [substr] throws [std::out_of_range];
    on every longer name no exception is thrown. *)
Theorem fileStub_throws_iff_short (file : list ascii) :
  (fileStub file = Throws <-> size file < 4) /\
  (saved_names file = Throws <-> size file < 4).
Proof.
  assert (A : fileStub file = Throws <-> size file < 4).
  { split.
    - intros T. destruct (Z.lt_ge_cases (size file) 4) as [S|S]; [exact S|].
      now destruct (fileStub_long file S).
    - apply fileStub_short. }
  split; [exact A|]. rewrite <- A. unfold saved_names.
  destruct (fileStub file); split; intros E; try discriminate; reflexivity.
Qed.

(** X10.  On a cloud name that ends in [.ply] raytransients saves the two
    clouds under the name without [.ply], followed by [_transient.ply] and
    [_fixed.ply]; on a name of at least four characters with another ending
    it appends them to the whole name. *)
Theorem saved_names_of_cloud (file : list ascii) :
  4 <= size file < 2 ^ 64 ->
  (forall stub, file = stub ++ dot_ply ->
     saved_names file = Returns (stub ++ transient_ply, stub ++ fixed_ply)) /\
  (last_chars 4 file <> dot_ply ->
     saved_names file = Returns (file ++ transient_ply, file ++ fixed_ply)).
Proof.
  intros H. unfold saved_names. rewrite (fileStub_cases file H). split.
  - intros stub ->. rewrite last_chars_app by reflexivity.
    cbn [string_eqb dot_ply]. rewrite !Ascii.eqb_refl. cbn [andb].
    now rewrite (firstn_app_exact stub dot_ply 4 eq_refl).
  - intros N. destruct (string_eqb _ _) eqn:E; [|reflexivity].
    apply string_eqb_eq in E. contradiction.
Qed.

(** The cloud [a.ply] is saved as [a_transient.ply] and [a_fixed.ply], the
    cloud [a.pcd] as [a.pcd_transient.ply] and [a.pcd_fixed.ply]. *)
Lemma saved_names_of_cloud_witness :
  saved_names ("a" :: dot_ply)%char
  = Returns (["a"]%char ++ transient_ply, ["a"]%char ++ fixed_ply) /\
  saved_names ["a"; "."; "p"; "c"; "d"]%char
  = Returns (["a"; "."; "p"; "c"; "d"]%char ++ transient_ply,
             ["a"; "."; "p"; "c"; "d"]%char ++ fixed_ply).
Proof.
  split.
  - apply (saved_names_of_cloud ("a" :: dot_ply)%char);
      [vm_compute; split; [discriminate | reflexivity] | reflexivity].
  - apply (saved_names_of_cloud ["a"; "."; "p"; "c"; "d"]%char);
      [vm_compute; split; [discriminate | reflexivity] | ].
    vm_compute. discriminate.
Defined.

(** X11.  On a name that ends in [.ply] the file stub of raytransients is
    the stub that [FileArgument::nameStub] gives; on a name of fewer than
    four characters [nameStub] returns the empty stub where raytransients
    throws. *)
Theorem fileStub_agrees_with_nameStub (file : list ascii) :
  size file <= INT_MAX ->
  (last_chars 4 file = dot_ply -> fileStub file = nameStub file) /\
  (size file < 4 -> nameStub file = Returns [] /\ fileStub file = Throws).
Proof.
  intros H. rewrite (nameStub_firstn file H). split.
  - intros E.
    assert (L : 4 <= size file).
    { unfold last_chars in E. apply (f_equal (@length ascii)) in E.
      rewrite length_skipn in E. cbn in E. unfold size. lia. }
    rewrite fileStub_cases by (unfold INT_MAX in H; lia).
    rewrite E. reflexivity.
  - intros S. split; [|now apply fileStub_short].
    replace (length file - 4)%nat with 0%nat by (unfold size in S; lia).
    reflexivity.
Qed.

(** On [a.ply] both give [a]; on [ab] one gives the empty stub and the other
    throws. *)
Lemma fileStub_agrees_with_nameStub_witness :
  fileStub ("a" :: dot_ply)%char = nameStub ("a" :: dot_ply)%char /\
  nameStub ["a"; "b"]%char = Returns [] /\ fileStub ["a"; "b"]%char = Throws.
Proof.
  split.
  - apply (fileStub_agrees_with_nameStub ("a" :: dot_ply)%char);
      [vm_compute; discriminate | reflexivity].
  - apply (fileStub_agrees_with_nameStub ["a"; "b"]%char);
      [vm_compute; discriminate | reflexivity].
Defined.

(** * More on FaceComp *)

Lemma eqb_sym (x y : float) : (x =? y)%float = true -> (y =? x)%float = true.
Proof.
  intros H. apply eqb_key in H. apply eqb_key.
  destruct H as (A & B & C). now repeat split.
Qed.

Lemma eqb_trans (x y z : float) :
  (x =? y)%float = true -> (y =? z)%float = true -> (x =? z)%float = true.
Proof.
  intros H1 H2. apply eqb_key in H1, H2. apply eqb_key.
  destruct H1 as (A & B & C), H2 as (_ & D & E). repeat split; congruence.
Qed.

Lemma differ_false (a b : SurfaceFace.t) :
  differ a b = false <->
  (SurfaceFace.curvature a =? SurfaceFace.curvature b)%float = true /\
  SurfaceFace.triangle a = SurfaceFace.triangle b /\
  SurfaceFace.tetrahedron a = SurfaceFace.tetrahedron b.
Proof.
  unfold differ. rewrite !orb_false_iff, !negb_false_iff, !Z.eqb_eq. tauto.
Qed.

Lemma equivalent_differ (a b : SurfaceFace.t) :
  is_nan (SurfaceFace.curvature a) = false ->
  is_nan (SurfaceFace.curvature b) = false ->
  equivalent a b = negb (differ a b).
Proof.
  intros Na Nb. unfold equivalent. destruct (differ a b) eqn:D.
  - destruct (FaceComp_total a b Na Nb D) as [H|H]; rewrite H; cbn;
      [reflexivity | apply andb_false_r].
  - apply differ_false in D. destruct D as (C & T & U).
    unfold FaceComp. rewrite C, (eqb_sym _ _ C), T, U, !Z.eqb_refl, !Z.ltb_irrefl.
    reflexivity.
Qed.

(** X12.  [FaceComp] is a strict weak ordering, as [std::set] requires of
    its comparator, on records whose curvature is not NaN: two of them are
    equivalent keys (neither before the other) exactly when they are equal
    field by field, and equivalence is transitive.  With a NaN curvature it
    is not: a record of NaN curvature is equivalent to two records of which
    one is before the other. *)
Theorem FaceComp_strict_weak_order :
  (forall a b,
     is_nan (SurfaceFace.curvature a) = false ->
     is_nan (SurfaceFace.curvature b) = false ->
     equivalent a b = negb (differ a b)) /\
  (forall a b c,
     is_nan (SurfaceFace.curvature a) = false ->
     is_nan (SurfaceFace.curvature b) = false ->
     is_nan (SurfaceFace.curvature c) = false ->
     equivalent a b = true -> equivalent b c = true -> equivalent a c = true) /\
  (exists a b c,
     equivalent a b = true /\ equivalent b c = true /\ FaceComp a c = true).
Proof.
  split; [exact equivalent_differ|]. split.
  - intros a b c Na Nb Nc.
    rewrite (equivalent_differ a b Na Nb), (equivalent_differ b c Nb Nc),
      (equivalent_differ a c Na Nc), !negb_true_iff, !differ_false.
    intros (C1 & T1 & U1) (C2 & T2 & U2).
    split; [now apply (eqb_trans _ _ _ C1 C2) | split; congruence].
  - exists (SurfaceFace.mk 0 0 1), (SurfaceFace.mk 0 0 nan), (SurfaceFace.mk 0 0 2).
    repeat split; vm_compute; reflexivity.
Qed.

Lemma FaceComp_leb (a b : SurfaceFace.t) :
  FaceComp a b = true ->
  (SurfaceFace.curvature a <=? SurfaceFace.curvature b)%float = true.
Proof.
  unfold FaceComp. rewrite leb_spec, eqb_spec, ltb_spec.
  unfold SFleb, SFeqb, SFltb.
  destruct (SFcompare _ _) as [[]|]; try reflexivity.
  - discriminate.
  - discriminate.
Qed.

(** X13.  The candidate set is iterated in order of curvature: along a set
    in the order of [FaceComp] the curvatures never decrease, so the first
    candidate has the least curvature and no candidate has a smaller one. *)
Theorem ordered_by_curvature (s : list SurfaceFace.t) :
  ordered s ->
  curvature_sorted s /\
  (forall x s', s = x :: s' -> forall y, In y s' ->
     (SurfaceFace.curvature y <? SurfaceFace.curvature x)%float = false).
Proof.
  intros O. split.
  - unfold ordered, curvature_sorted in *.
    induction O as [|x s O IH F]; constructor; [exact IH|].
    rewrite Forall_forall in *. intros y Hy. apply FaceComp_leb. now apply F.
  - intros x s' -> y Hy. unfold ordered in O.
    apply StronglySorted_inv in O. destruct O as [_ F].
    rewrite Forall_forall in F. specialize (F y Hy).
    destruct (_ <? _)%float eqn:L; [|reflexivity].
    assert (B : FaceComp y x = true).
    { unfold FaceComp. destruct (_ =? _)%float eqn:E; [|exact L].
      apply eqb_key in E. apply ltb_key in L.
      destruct E as (_ & _ & E), L as (_ & _ & L). rewrite E in L.
      now apply klt_irrefl in L. }
    apply FaceComp_asym in B. congruence.
Qed.

(** The set of three candidates of curvatures 3, 1 and 2 is iterated as 1,
    2, 3. *)
Lemma ordered_by_curvature_witness :
  curvature_sorted
    (set_of_list [SurfaceFace.mk 0 0 3; SurfaceFace.mk 1 1 1; SurfaceFace.mk 2 2 2]).
Proof.
  apply (ordered_by_curvature
           (set_of_list [SurfaceFace.mk 0 0 3; SurfaceFace.mk 1 1 1;
                         SurfaceFace.mk 2 2 2])).
  vm_compute. repeat constructor.
Defined.

(** * Trajectory files *)

Lemma newlines_cons (c : ascii) (l : list ascii) :
  newlines (c :: l)
  = if Ascii.eqb c newline then S (newlines l) else newlines l.
Proof. unfold newlines. cbn [filter]. now destruct (Ascii.eqb c newline). Qed.

Lemma newlines_le_length (l : list ascii) : (newlines l <= length l)%nat.
Proof. apply List.filter_length_le. Qed.

Lemma take_line_newlines (l : list ascii) :
  match take_line l with
  | (_, Some r) => newlines l = S (newlines r) /\ (length r < length l)%nat
  | (_, None) => newlines l = 0%nat
  end.
Proof.
  induction l as [|c l IH]; [reflexivity|].
  cbn [take_line]. rewrite newlines_cons.
  destruct (Ascii.eqb c newline).
  - split; [reflexivity | cbn; lia].
  - destruct (take_line l) as [line [r|]]; [|exact IH].
    destruct IH as [N L]. split; [exact N | cbn; lia].
Qed.

(** The counting loop on a good stream that ends with the file reads to
    the end of the file and counts one line more than there are newlines
    left. *)
Lemma count_lines_good (fuel : nat) :
  forall (r line : list ascii) (sz : Z),
    (length r + 2 <= fuel)%nat ->
    sz + Z.of_nat (newlines r) + 1 <= INT_MAX ->
    count_lines fuel (Ifstream.mk r EndOfFile false false false) line sz
    = Some (Returns (sz + Z.of_nat (newlines r) + 1)).
Proof.
  induction fuel as [|fuel IH]; intros r line sz F B; [lia|].
  cbn [count_lines Ifstream.eofbit]. unfold getline.
  cbn [Ifstream.eofbit Ifstream.failbit Ifstream.badbit Ifstream.rest
       Ifstream.after orb].
  pose proof (take_line_newlines r) as T.
  destruct (take_line r) as [l [r'|]].
  - destruct T as [N L].
    destruct (sz + 1 <=? INT_MAX) eqn:E; [|lia].
    rewrite IH by lia. do 2 f_equal. lia.
  - destruct (sz + 1 <=? INT_MAX) eqn:E; [|lia].
    destruct fuel as [|fuel]; [lia|].
    cbn [count_lines Ifstream.eofbit]. do 2 f_equal. lia.
Qed.

(** The reading loop stays on a good stream as long as there are newlines
    left. *)
Lemma read_lines_good (n : nat) :
  forall (e : ending) (r line : list ascii),
    (n <= newlines r)%nat ->
    exists r' line',
      read_lines n (Ifstream.mk r e false false false) line
      = Some (Ifstream.mk r' e false false false, line').
Proof.
  induction n as [|n IH]; intros e r line B.
  - exists r, line. reflexivity.
  - cbn [read_lines]. unfold fail, getline.
    cbn [Ifstream.eofbit Ifstream.failbit Ifstream.badbit Ifstream.rest
         Ifstream.after orb].
    pose proof (take_line_newlines r) as T.
    destruct (take_line r) as [l [r'|]]; [|lia].
    destruct T as [N L]. apply IH. lia.
Qed.

Lemma load_newlines (Node : Type) (Node_default : Node) (fuel : nat)
    (content : list ascii) (nodes : list Node) :
  (length content < fuel)%nat ->
  size content <= INT_MAX ->
  load Node Node_default fuel (Some (File.mk content EndOfFile)) nodes
  = Some (match newlines content with
          | O => Throws
          | S n => Returns (true, repeat Node_default n)
          end).
Proof.
  intros F B. unfold load, open, getline.
  cbn [Ifstream.eofbit Ifstream.failbit Ifstream.badbit Ifstream.rest
       Ifstream.after File.chars File.last orb].
  pose proof (take_line_newlines content) as T.
  pose proof (newlines_le_length content) as NL.
  destruct (take_line content) as [l [r|]].
  - destruct T as [N L]. pose proof (newlines_le_length r) as NR.
    rewrite count_lines_good by (unfold size, INT_MAX in *; lia).
    replace (-1 + Z.of_nat (newlines r) + 1) with (Z.of_nat (newlines r)) by lia.
    destruct (Z.of_nat (newlines r) <? 0) eqn:E; [lia|].
    rewrite Nat2Z.id, repeat_length, N.
    destruct (read_lines_good (newlines r) EndOfFile r l (Nat.le_refl _))
      as (r' & l' & R).
    rewrite R. reflexivity.
  - rewrite T. destruct fuel as [|fuel]; [lia|]. reflexivity.
Qed.

(** After a read error [eofbit] is never set. *)
Lemma getline_read_error (ifs : Ifstream.t) (line : list ascii) :
  Ifstream.after ifs = ReadError -> Ifstream.eofbit ifs = false ->
  Ifstream.after (fst (getline ifs line)) = ReadError /\
  Ifstream.eofbit (fst (getline ifs line)) = false.
Proof.
  intros A E. unfold getline. rewrite E, A.
  destruct (false || Ifstream.failbit ifs || Ifstream.badbit ifs);
    [cbn; now split|].
  destruct (take_line (Ifstream.rest ifs)) as [l [r|]]; cbn; now split.
Qed.

Lemma count_lines_read_error (fuel : nat) :
  forall (ifs : Ifstream.t) (line : list ascii) (sz : Z),
    Ifstream.after ifs = ReadError -> Ifstream.eofbit ifs = false ->
    count_lines fuel ifs line sz = None \/
    count_lines fuel ifs line sz = Some Undefined.
Proof.
  induction fuel as [|fuel IH]; intros ifs line sz A E; [now left|].
  cbn [count_lines]. rewrite E.
  destruct (getline_read_error ifs line A E) as [A' E'].
  destruct (getline ifs line) as [ifs' line'].
  destruct (sz + 1 <=? INT_MAX); [|now right].
  now apply IH.
Qed.

(** The counting loop on a stream that cannot end makes at least as many
    turns as there are values of the counter up to [INT_MAX]. *)
Lemma count_lines_read_error_fuel (fuel : nat) :
  forall (ifs : Ifstream.t) (line : list ascii) (sz : Z),
    Ifstream.after ifs = ReadError -> Ifstream.eofbit ifs = false ->
    sz + Z.of_nat fuel <= INT_MAX ->
    count_lines fuel ifs line sz = None.
Proof.
  induction fuel as [|fuel IH]; intros ifs line sz A E B; [reflexivity|].
  cbn [count_lines]. rewrite E.
  destruct (getline_read_error ifs line A E) as [A' E'].
  destruct (getline ifs line) as [ifs' line'].
  destruct (sz + 1 <=? INT_MAX) eqn:L; [|lia].
  apply IH; [assumption | assumption | lia].
Qed.

(** X14.  [Trajectory::load] on a file that opens.  When the file is read to
    its end, given enough fuel for the counting loop: on a file without a
    newline the node count stays [-1] and the construction of the vector
    throws, and on any other file the call returns true and leaves one
    default node for each newline after the first, whatever the lines
    contain.  When reading fails before the end of the file, the counting
    loop, which tests [eof()] only, does not end: the call neither returns
    nor throws, it is still in the loop after [2^31] turns, where its
    counter overflows. *)
Theorem load_counts_newlines (Node : Type) (Node_default : Node)
    (content : list ascii) (nodes : list Node) :
  (forall fuel,
     (length content < fuel)%nat ->
     size content <= INT_MAX ->
     load Node Node_default fuel (Some (File.mk content EndOfFile)) nodes
     = Some (if (newlines content =? 0)%nat then Throws
             else Returns (true, repeat Node_default (newlines content - 1)))) /\
  (forall fuel,
     (load Node Node_default fuel (Some (File.mk content ReadError)) nodes = None \/
      load Node Node_default fuel (Some (File.mk content ReadError)) nodes
      = Some Undefined) /\
     (Z.of_nat fuel <= 2 ^ 31 ->
      load Node Node_default fuel (Some (File.mk content ReadError)) nodes = None)).
Proof.
  split.
  - intros fuel F B.
    rewrite (load_newlines Node Node_default fuel content nodes F B).
    destruct (newlines content) as [|n]; [reflexivity|].
    cbn [Nat.eqb]. now replace (S n - 1)%nat with n by lia.
  - intros fuel. unfold load.
    pose proof (getline_read_error (open (File.mk content ReadError)) []
                  eq_refl eq_refl) as [A E].
    destruct (getline (open (File.mk content ReadError)) []) as [ifs line].
    cbn [fst] in A, E. split.
    + destruct (count_lines_read_error fuel ifs line (-1) A E) as [C|C];
        rewrite C; [now left | now right].
    + intros B.
      rewrite (count_lines_read_error_fuel fuel ifs line (-1) A E);
        [reflexivity | unfold INT_MAX; lia].
Qed.

(** A file of a header and two lines loads as two default nodes, here the
    node [0] where numbers stand for nodes; an empty path that cannot be
    read keeps the call in its loop. *)
Lemma load_counts_newlines_witness :
  load Z 0 8 (Some (File.mk ["h"; newline; "a"; newline; "b"; newline]%char
                            EndOfFile)) [5]
  = Some (Returns (true, [0; 0])) /\
  load Z 0 8 (Some (File.mk [] ReadError)) [5] = None.
Proof.
  split.
  - refine (proj1 (load_counts_newlines Z 0
                     ["h"; newline; "a"; newline; "b"; newline]%char [5])
                  8%nat _ _).
    + cbn. lia.
    + vm_compute. discriminate.
  - refine (proj2 (proj2 (load_counts_newlines Z 0 [] [5]) 8%nat) _).
    vm_compute. discriminate.
Defined.
